(** * actor-spec: the [generate] command of [src/cli/commands.ts]

    A shallow embedding of the config-resolution pipeline: the two path
    helpers [absPath] and [resolvePath], and [generate], which loads a
    user config module, resolves its default export, checks the version
    marker, serialises the object and writes [actorspec.json].

    The command runs on Node.js.  The parts of the platform it calls
    ([path.resolve], [path.relative], [typeof], truthiness, template
    literals, [await], [JSON.stringify]) are modelled in the modules
    [Path], [Js] and [Json]; the process environment ([process.cwd()],
    [module.path], [require], the file system) is the record [World]. *)

From Stdlib Require Import String Ascii List ZArith NArith Lia Bool.
From Stdlib Require Import DecimalString DecimalN DecimalZ DecimalFacts.
Import ListNotations.
Set Warnings "-register-all".
Local Open Scope list_scope.
Local Open Scope string_scope.

(* ================================================================== *)
(** * Part I: definitions                                             *)
(* ================================================================== *)

(** ** Strings *)

Module Str.

(** [needle] occurs in [hay] (as [String.prototype.includes] tells). *)
Fixpoint hasSubstring (needle hay : string) : bool :=
  String.prefix needle hay ||
  match hay with
  | EmptyString => false
  | String _ rest => hasSubstring needle rest
  end.

(** The same as a proposition: [hay] is [pre ++ needle ++ post]. *)
Definition Contains (needle hay : string) : Prop :=
  exists pre post, hay = pre ++ needle ++ post.

(** Pieces of [s] between occurrences of [sep], empty pieces included
    ([String.prototype.split] on a one-character separator). *)
Fixpoint split (sep : ascii) (s : string) : list string :=
  match s with
  | EmptyString => [EmptyString]
  | String c rest =>
      if Ascii.eqb c sep then EmptyString :: split sep rest
      else match split sep rest with
           | [] => [String c EmptyString]
           | piece :: pieces => String c piece :: pieces
           end
  end.

(** [c] does not occur in [s]. *)
Fixpoint lacks (c : ascii) (s : string) : bool :=
  match s with
  | EmptyString => true
  | String d rest => negb (Ascii.eqb d c) && lacks c rest
  end.

End Str.

(** ** Node's [path] module, POSIX flavour *)

Module Path.

Definition sep : ascii := "/"%char.

Definition isAbsolute (p : string) : bool :=
  match p with
  | String c _ => Ascii.eqb c sep
  | EmptyString => false
  end.

(** One segment of [normalizeString].  [res] is the result so far, last
    segment first.  Empty segments and ["."] are skipped; [".."] removes
    the last segment unless there is none or it is [".."] itself, in
    which case it is kept only when [allowAboveRoot]. *)
Definition normalizeStep (allowAboveRoot : bool) (res : list string) (seg : string)
  : list string :=
  if (seg =? "") || (seg =? ".") then res
  else if seg =? ".." then
    match res with
    | last :: res' =>
        if last =? ".." then (if allowAboveRoot then ".." :: res else res)
        else res'
    | [] => if allowAboveRoot then [".."] else []
    end
  else seg :: res.

Definition normalizeSegments (allowAboveRoot : bool) (segs : list string) : list string :=
  rev (fold_left (normalizeStep allowAboveRoot) segs []).

Definition normalizeString (path : string) (allowAboveRoot : bool) : string :=
  String.concat "/" (normalizeSegments allowAboveRoot (Str.split sep path)).

(** The loop of [path.resolve]: arguments from the last to the first,
    then [process.cwd()], until an absolute one has been prepended. *)
Fixpoint resolveLoop (cwd : string) (revArgs : list string) (resolvedPath : string)
  : string * bool :=
  match revArgs with
  | [] =>
      if cwd =? "" then (resolvedPath, false)
      else (cwd ++ "/" ++ resolvedPath, isAbsolute cwd)
  | p :: rest =>
      if p =? "" then resolveLoop cwd rest resolvedPath
      else if isAbsolute p then (p ++ "/" ++ resolvedPath, true)
      else resolveLoop cwd rest (p ++ "/" ++ resolvedPath)
  end.

(** [path.resolve(...args)] in a process whose working directory is [cwd]. *)
Definition resolve (cwd : string) (args : list string) : string :=
  let '(resolvedPath, resolvedAbsolute) := resolveLoop cwd (rev args) "" in
  let res := normalizeString resolvedPath (negb resolvedAbsolute) in
  if resolvedAbsolute then "/" ++ res
  else if res =? "" then "." else res.

(** Segments of a resolved path: the pieces after the root. *)
Definition segments (p : string) : list string :=
  filter (fun seg => negb (seg =? "")) (Str.split sep p).

(** What is left of two segment lists after their longest common prefix. *)
Fixpoint dropCommon (from to : list string) : list string * list string :=
  match from, to with
  | f :: from', t :: to' => if f =? t then dropCommon from' to' else (from, to)
  | _, _ => (from, to)
  end.

(** [path.relative(from, to)]: one [".."] for each segment of [from]
    past the common prefix, then the segments of [to] past it.  This is
    Node's character loop read segment by segment; the two agree on the
    normalised absolute paths that [resolve] returns. *)
Definition relative (cwd from to : string) : string :=
  if from =? to then ""
  else
    let from := resolve cwd [from] in
    let to := resolve cwd [to] in
    if from =? to then ""
    else
      let '(fromRest, toRest) := dropCommon (segments from) (segments to) in
      String.concat "/" (map (fun _ => "..") fromRest ++ toRest)%list.

(** An ordinary segment: not empty, not a dot segment, no separator. *)
Definition plain (seg : string) : bool :=
  Str.lacks sep seg && negb (seg =? "") && negb (seg =? ".") && negb (seg =? "..").

Definition allPlain (segs : list string) : Prop :=
  Forall (fun seg => plain seg = true) segs.

(** The absolute path with the given segments. *)
Definition rooted (segs : list string) : string :=
  String sep (String.concat "/" segs).

(** Appending a name to a resolved directory. *)
Definition inDirectory (dir name : string) : string :=
  if dir =? "/" then "/" ++ name else dir ++ "/" ++ name.

End Path.

(** ** JavaScript values

    Strings are sequences of 8-bit characters.  Objects are plain data:
    no accessors, no [toString] or [toJSON] of their own, no prototype
    other than the built-in one. *)

Module Js.

(** A thrown [Error] object. *)
Record error := mkError { name : string; message : string }.

Definition TypeError (msg : string) : error := mkError "TypeError" msg.

(** Result of evaluating something that may throw. *)
Inductive completion (A : Type) :=
| Normal (a : A)
| Throw (e : error).
Arguments Normal {A} a.
Arguments Throw {A} e.

(** State of a promise. *)
Inductive settle (A : Type) :=
| Pending
| Fulfilled (a : A)
| Rejected (e : error).
Arguments Pending {A}.
Arguments Fulfilled {A} a.
Arguments Rejected {A} e.

(** Numbers.  A finite non-zero Number is kept as Number::toString
    sees it: the decimal digits [d1..dk] of [s] (no leading and no
    trailing zero) and the exponent [n], for the value
    [0.d1..dk * 10^n]. *)
Inductive number :=
| NaN
| Infinity (negative : bool)
| Zero (negative : bool)
| Finite (negative : bool) (digits : string) (n : Z).

(** Values.  An object is its own enumerable string-keyed properties
    in own-key order; an array is its elements; a function is its
    source text and what a call with no arguments does. *)
Inductive value :=
| VUndefined
| VNull
| VBool (b : bool)
| VNumber (x : number)
| VBigInt (z : Z)
| VString (s : string)
| VSymbol (description : string)
| VObject (props : list (string * value))
| VArray (elems : list value)
| VFunction (source : string) (call : completion value)
| VPromise (state : settle value).

Definition typeof (v : value) : string :=
  match v with
  | VUndefined => "undefined"
  | VNull => "object"
  | VBool _ => "boolean"
  | VNumber _ => "number"
  | VBigInt _ => "bigint"
  | VString _ => "string"
  | VSymbol _ => "symbol"
  | VObject _ | VArray _ | VPromise _ => "object"
  | VFunction _ _ => "function"
  end.

(** ToBoolean. *)
Definition truthy (v : value) : bool :=
  match v with
  | VUndefined | VNull => false
  | VBool b => b
  | VNumber NaN | VNumber (Zero _) => false
  | VNumber _ => true
  | VBigInt z => negb (z =? 0)%Z
  | VString s => negb (s =? "")
  | _ => true
  end.

(** [Array.prototype.includes] on an array of strings. *)
Definition includes (l : list string) (s : string) : bool :=
  existsb (String.eqb s) l.

Fixpoint lookup (key : string) (props : list (string * value)) : option value :=
  match props with
  | [] => None
  | (k, v) :: rest => if k =? key then Some v else lookup key rest
  end.

(** [v.key] for a key that no built-in prototype defines (the command
    reads [default] and [actorspecVersion]). *)
Definition Get (v : value) (key : string) : completion value :=
  match v with
  | VUndefined =>
      Throw (TypeError ("Cannot read properties of undefined (reading '" ++ key ++ "')"))
  | VNull =>
      Throw (TypeError ("Cannot read properties of null (reading '" ++ key ++ "')"))
  | VObject props =>
      match lookup key props with
      | Some x => Normal x
      | None => Normal VUndefined
      end
  | _ => Normal VUndefined
  end.

(** [await v]: [None] when [v] is a promise that never settles.  A
    value that is not a promise is passed through. *)
Definition Await (v : value) : option (completion value) :=
  match v with
  | VPromise Pending => None
  | VPromise (Fulfilled x) => Some (Normal x)
  | VPromise (Rejected e) => Some (Throw e)
  | _ => Some (Normal v)
  end.

(** *** Number::toString *)

Fixpoint zeros (n : nat) : string :=
  match n with
  | O => ""
  | S n' => String "0" (zeros n')
  end.

Fixpoint take (n : nat) (s : string) : string :=
  match n, s with
  | S n', String c rest => String c (take n' rest)
  | _, _ => ""
  end.

Fixpoint drop (n : nat) (s : string) : string :=
  match n, s with
  | S n', String _ rest => drop n' rest
  | _, _ => s
  end.

Definition decimalOfN (n : N) : string :=
  NilZero.string_of_uint (N.to_uint n).

Definition decimalOfZ (z : Z) : string :=
  ((if z <? 0 then "-" else "") ++ decimalOfN (Z.abs_N z))%Z.

(** Steps 6 to 10 of Number::toString, radix 10. *)
Definition digitsToString (ds : string) (n : Z) : string :=
  let k := Z.of_nat (String.length ds) in
  if ((k <=? n) && (n <=? 21))%Z then ds ++ zeros (Z.to_nat (n - k))
  else if ((0 <? n) && (n <=? 21))%Z then
    take (Z.to_nat n) ds ++ "." ++ drop (Z.to_nat n) ds
  else if ((-6 <? n) && (n <=? 0))%Z then "0." ++ zeros (Z.to_nat (- n)) ++ ds
  else
    let e := (n - 1)%Z in
    let exponent := (if (e <? 0)%Z then "-" else "+") ++ decimalOfN (Z.abs_N e) in
    match ds with
    | String d EmptyString => String d ("e" ++ exponent)
    | String d rest => String d ("." ++ rest ++ "e" ++ exponent)
    | EmptyString => "e" ++ exponent
    end.

Definition numberToString (x : number) : string :=
  match x with
  | NaN => "NaN"
  | Zero _ => "0"
  | Infinity negative => (if negative then "-" else "") ++ "Infinity"
  | Finite negative ds n => (if negative then "-" else "") ++ digitsToString ds n
  end.

Definition isFinite (x : number) : bool :=
  match x with
  | NaN | Infinity _ => false
  | _ => true
  end.

(** *** ToString, as a template literal applies it *)

Fixpoint ToString (v : value) : completion string :=
  match v with
  | VUndefined => Normal "undefined"
  | VNull => Normal "null"
  | VBool b => Normal (if b then "true" else "false")
  | VNumber x => Normal (numberToString x)
  | VBigInt z => Normal (decimalOfZ z)
  | VString s => Normal s
  | VSymbol _ => Throw (TypeError "Cannot convert a Symbol value to a string")
  | VObject _ => Normal "[object Object]"
  | VPromise _ => Normal "[object Promise]"
  | VFunction source _ => Normal source
  | VArray elems =>
      (fix join (first : bool) (l : list value) : completion string :=
         match l with
         | [] => Normal ""
         | x :: l' =>
             match (match x with
                    | VUndefined | VNull => Normal ""
                    | _ => ToString x
                    end) with
             | Throw e => Throw e
             | Normal s =>
                 match join false l' with
                 | Throw e => Throw e
                 | Normal t => Normal ((if first then "" else ",") ++ s ++ t)
                 end
             end
         end) true elems
  end.

End Js.

(** ** [JSON.stringify] and [JSON.parse] *)

Module Json.
Import Js.

Definition dquote : ascii := "034"%char.
Definition backslash : ascii := "092"%char.
Definition LF : ascii := "010"%char.

Definition hexDigit (n : nat) : ascii :=
  match n with
  | 0 => "0" | 1 => "1" | 2 => "2" | 3 => "3" | 4 => "4" | 5 => "5"
  | 6 => "6" | 7 => "7" | 8 => "8" | 9 => "9" | 10 => "a" | 11 => "b"
  | 12 => "c" | 13 => "d" | 14 => "e" | _ => "f"
  end%char.

(** One code unit of QuoteJSONString. *)
Definition quoteChar (c : ascii) : string :=
  let n := nat_of_ascii c in
  if Nat.eqb n 8 then "\b"
  else if Nat.eqb n 9 then "\t"
  else if Nat.eqb n 10 then "\n"
  else if Nat.eqb n 12 then "\f"
  else if Nat.eqb n 13 then "\r"
  else if Nat.eqb n 34 then String backslash (String dquote "")
  else if Nat.eqb n 92 then "\\"
  else if Nat.ltb n 32 then
    "\u00" ++ String (hexDigit (n / 16)) (String (hexDigit (n mod 16)) "")
  else String c "".

Fixpoint quoteBody (s : string) : string :=
  match s with
  | EmptyString => ""
  | String c rest => quoteChar c ++ quoteBody rest
  end.

Definition QuoteJSONString (s : string) : string :=
  String dquote (quoteBody s ++ String dquote "").

Fixpoint spaces (n : nat) : string :=
  match n with
  | O => ""
  | S n' => String " " (spaces n')
  end.

(** The closing steps of SerializeJSONObject and SerializeJSONArray. *)
Definition wrap (opening closing gap stepback indent : string) (partial : list string)
  : string :=
  match partial with
  | [] => opening ++ closing
  | _ =>
      if gap =? "" then opening ++ String.concat "," partial ++ closing
      else
        let separator := "," ++ String LF indent in
        opening ++ String LF indent ++ String.concat separator partial
                ++ String LF stepback ++ closing
  end.

(** SerializeJSONProperty without replacer: [Normal None] is the
    specification's [undefined]. *)
Fixpoint SerializeJSONProperty (gap indent : string) (v : value)
  : completion (option string) :=
  match v with
  | VNull => Normal (Some "null")
  | VBool b => Normal (Some (if b then "true" else "false"))
  | VString s => Normal (Some (QuoteJSONString s))
  | VNumber x => Normal (Some (if isFinite x then numberToString x else "null"))
  | VBigInt _ => Throw (TypeError "Do not know how to serialize a BigInt")
  | VUndefined | VSymbol _ | VFunction _ _ => Normal None
  | VPromise _ => Normal (Some "{}")
  | VArray elems =>
      let stepback := indent in
      let indent := indent ++ gap in
      match
        (fix elements (l : list value) : completion (list string) :=
           match l with
           | [] => Normal []
           | x :: l' =>
               match SerializeJSONProperty gap indent x with
               | Throw e => Throw e
               | Normal strP =>
                   match elements l' with
                   | Throw e => Throw e
                   | Normal partial =>
                       Normal (match strP with
                               | None => "null"
                               | Some str => str
                               end :: partial)
                   end
               end
           end) elems
      with
      | Throw e => Throw e
      | Normal partial => Normal (Some (wrap "[" "]" gap stepback indent partial))
      end
  | VObject props =>
      let stepback := indent in
      let indent := indent ++ gap in
      match
        (fix members (l : list (string * value)) : completion (list string) :=
           match l with
           | [] => Normal []
           | (key, x) :: l' =>
               match SerializeJSONProperty gap indent x with
               | Throw e => Throw e
               | Normal strP =>
                   match members l' with
                   | Throw e => Throw e
                   | Normal partial =>
                       Normal (match strP with
                               | None => partial
                               | Some str =>
                                   (QuoteJSONString key ++ ":"
                                    ++ (if gap =? "" then "" else " ") ++ str)
                                   :: partial
                               end)
                   end
               end
           end) props
      with
      | Throw e => Throw e
      | Normal partial => Normal (Some (wrap "{" "}" gap stepback indent partial))
      end
  end.

(** [JSON.stringify(value, null, space)] for a numeric [space]. *)
Definition stringify (v : value) (space : nat) : completion (option string) :=
  SerializeJSONProperty (spaces (Nat.min 10 space)) "" v.

(** *** [JSON.parse] *)

Definition isWhitespace (c : ascii) : bool :=
  let n := nat_of_ascii c in
  Nat.eqb n 32 || Nat.eqb n 9 || Nat.eqb n 10 || Nat.eqb n 13.

Fixpoint skipWhitespace (s : string) : string :=
  match s with
  | String c rest => if isWhitespace c then skipWhitespace rest else s
  | EmptyString => s
  end.

Definition isDigit (c : ascii) : bool :=
  let n := nat_of_ascii c in Nat.leb 48 n && Nat.leb n 57.

Fixpoint spanDigits (s : string) : string * string :=
  match s with
  | String c rest =>
      if isDigit c then let '(ds, t) := spanDigits rest in (String c ds, t)
      else ("", s)
  | EmptyString => ("", "")
  end.

Definition hexValue (c : ascii) : option nat :=
  let n := nat_of_ascii c in
  if Nat.leb 48 n && Nat.leb n 57 then Some (n - 48)
  else if Nat.leb 97 n && Nat.leb n 102 then Some (n - 87)
  else if Nat.leb 65 n && Nat.leb n 70 then Some (n - 55)
  else None.

(** The characters of a string literal after its opening quote, up to
    and including the closing quote.  A [\u] escape above [00ff] has no
    counterpart among the 8-bit characters of this model and is refused. *)
Fixpoint parseStringBody (s : string) : option (string * string) :=
  match s with
  | EmptyString => None
  | String c rest =>
      if Ascii.eqb c dquote then Some ("", rest)
      else if Ascii.eqb c backslash then
        match rest with
        | String e rest' =>
            let simple (x : ascii) :=
              match parseStringBody rest' with
              | Some (str, t) => Some (String x str, t)
              | None => None
              end in
            if Ascii.eqb e dquote then simple dquote
            else if Ascii.eqb e backslash then simple backslash
            else if Ascii.eqb e "/" then simple "/"%char
            else if Ascii.eqb e "b" then simple "008"%char
            else if Ascii.eqb e "f" then simple "012"%char
            else if Ascii.eqb e "n" then simple "010"%char
            else if Ascii.eqb e "r" then simple "013"%char
            else if Ascii.eqb e "t" then simple "009"%char
            else if Ascii.eqb e "u" then
              match rest' with
              | String h3 (String h2 (String h1 (String h0 rest''))) =>
                  match hexValue h3, hexValue h2, hexValue h1, hexValue h0 with
                  | Some 0, Some 0, Some a, Some b =>
                      match parseStringBody rest'' with
                      | Some (str, t) => Some (String (ascii_of_nat (16 * a + b)) str, t)
                      | None => None
                      end
                  | _, _, _, _ => None
                  end
              | _ => None
              end
            else None
        | EmptyString => None
        end
      else if Nat.ltb (nat_of_ascii c) 32 then None
      else
        match parseStringBody rest with
        | Some (str, t) => Some (String c str, t)
        | None => None
        end
  end.

Fixpoint countLeadingZeros (s : string) : nat :=
  match s with
  | String c rest => if Ascii.eqb c "0" then S (countLeadingZeros rest) else O
  | EmptyString => O
  end.

Fixpoint stripTrailingZeros (s : string) : string :=
  match s with
  | EmptyString => ""
  | String c rest =>
      let rest' := stripTrailingZeros rest in
      if Ascii.eqb c "0" && (rest' =? "") then "" else String c rest'
  end.

(** The Number a decimal literal denotes: integer digits [ip], fraction
    digits [fp], exponent [e].  (Rounding to the nearest double is not
    modelled: every decimal is kept exactly.) *)
Definition makeNumber (negative : bool) (ip fp : string) (e : Z) : number :=
  let all := ip ++ fp in
  let lz := countLeadingZeros all in
  let ds := stripTrailingZeros (drop lz all) in
  if ds =? "" then Zero negative
  else Finite negative ds (Z.of_nat (String.length ip) - Z.of_nat lz + e).

Definition parseExponent (s : string) : option (Z * string) :=
  match s with
  | String c rest =>
      if Ascii.eqb c "e" || Ascii.eqb c "E" then
        let '(negative, rest) :=
          match rest with
          | String sg rest' =>
              if Ascii.eqb sg "+" then (false, rest')
              else if Ascii.eqb sg "-" then (true, rest')
              else (false, rest)
          | EmptyString => (false, rest)
          end in
        let '(ep, t) := spanDigits rest in
        match NilZero.uint_of_string ep with
        | Some u =>
            let m := Z.of_N (N.of_uint u) in
            Some (if negative then (- m)%Z else m, t)
        | None => None
        end
      else Some (0%Z, s)
  | EmptyString => Some (0%Z, s)
  end.

Definition parseFraction (s : string) : option (string * string) :=
  match s with
  | String c rest =>
      if Ascii.eqb c "." then
        let '(fp, t) := spanDigits rest in
        if fp =? "" then None else Some (fp, t)
      else Some ("", s)
  | EmptyString => Some ("", s)
  end.

Definition parseNumber (s : string) : option (number * string) :=
  let '(negative, s) :=
    match s with
    | String c rest => if Ascii.eqb c "-" then (true, rest) else (false, s)
    | EmptyString => (false, s)
    end in
  let '(ip, s) := spanDigits s in
  if (ip =? "") || (String.prefix "0" ip && negb (ip =? "0")) then None
  else
    match parseFraction s with
    | None => None
    | Some (fp, s) =>
        match parseExponent s with
        | None => None
        | Some (e, s) => Some (makeNumber negative ip fp e, s)
        end
    end.

Definition parseLiteral (word : string) (v : value) (s : string) : option (value * string) :=
  if String.prefix word s then Some (v, drop (String.length word) s) else None.

(** CreateDataProperty on the property list: a key already present
    keeps its place and takes the new value. *)
Fixpoint defineProperty (props : list (string * value)) (kv : string * value)
  : list (string * value) :=
  match props with
  | [] => [kv]
  | (k, v) :: rest =>
      if k =? fst kv then (k, snd kv) :: rest else (k, v) :: defineProperty rest kv
  end.

Fixpoint parseValue (fuel : nat) (s : string) {struct fuel} : option (value * string) :=
  match fuel with
  | O => None
  | S fuel' =>
      match skipWhitespace s with
      | EmptyString => None
      | String c rest =>
          if Ascii.eqb c "{" then
            match skipWhitespace rest with
            | EmptyString => None
            | String c' rest' =>
                if Ascii.eqb c' "}" then Some (VObject [], rest')
                else
                  match parseMembers fuel' (String c' rest') with
                  | Some (ms, t) => Some (VObject (fold_left defineProperty ms []), t)
                  | None => None
                  end
            end
          else if Ascii.eqb c "[" then
            match skipWhitespace rest with
            | EmptyString => None
            | String c' rest' =>
                if Ascii.eqb c' "]" then Some (VArray [], rest')
                else
                  match parseElements fuel' (String c' rest') with
                  | Some (vs, t) => Some (VArray vs, t)
                  | None => None
                  end
            end
          else if Ascii.eqb c dquote then
            match parseStringBody rest with
            | Some (str, t) => Some (VString str, t)
            | None => None
            end
          else if Ascii.eqb c "n" then parseLiteral "null" VNull (String c rest)
          else if Ascii.eqb c "t" then parseLiteral "true" (VBool true) (String c rest)
          else if Ascii.eqb c "f" then parseLiteral "false" (VBool false) (String c rest)
          else
            match parseNumber (String c rest) with
            | Some (x, t) => Some (VNumber x, t)
            | None => None
            end
      end
  end
with parseElements (fuel : nat) (s : string) {struct fuel} : option (list value * string) :=
  match fuel with
  | O => None
  | S fuel' =>
      match parseValue fuel' s with
      | None => None
      | Some (v, t) =>
          match skipWhitespace t with
          | EmptyString => None
          | String c rest =>
              if Ascii.eqb c "," then
                match parseElements fuel' rest with
                | Some (vs, u) => Some (v :: vs, u)
                | None => None
                end
              else if Ascii.eqb c "]" then Some ([v], rest)
              else None
          end
      end
  end
with parseMembers (fuel : nat) (s : string) {struct fuel}
  : option (list (string * value) * string) :=
  match fuel with
  | O => None
  | S fuel' =>
      match skipWhitespace s with
      | EmptyString => None
      | String c rest =>
          if Ascii.eqb c dquote then
            match parseStringBody rest with
            | None => None
            | Some (key, t) =>
                match skipWhitespace t with
                | EmptyString => None
                | String c2 rest2 =>
                    if Ascii.eqb c2 ":" then
                      match parseValue fuel' rest2 with
                      | None => None
                      | Some (v, u) =>
                          match skipWhitespace u with
                          | EmptyString => None
                          | String c3 rest3 =>
                              if Ascii.eqb c3 "," then
                                match parseMembers fuel' rest3 with
                                | Some (ms, x) => Some ((key, v) :: ms, x)
                                | None => None
                                end
                              else if Ascii.eqb c3 "}" then Some ([(key, v)], rest3)
                              else None
                          end
                      end
                    else None
                end
            end
          else None
      end
  end.

(** [JSON.parse(text)]; [None] is a SyntaxError. *)
Definition parse (text : string) : option value :=
  match parseValue (S (String.length text)) text with
  | Some (v, t) => if skipWhitespace t =? "" then Some v else None
  | None => None
  end.

Fixpoint allDigits (s : string) : bool :=
  match s with
  | EmptyString => true
  | String c rest => isDigit c && allDigits rest
  end.

(** Digits of a Number as Number::toString chooses them: at least one,
    no leading zero, no trailing zero. *)
Definition digitsOk (ds : string) : bool :=
  allDigits ds && negb (ds =? "") && negb (String.prefix "0" ds)
  && (stripTrailingZeros ds =? ds).

(** Numbers that JSON text denotes and [Number::toString] writes back
    the same: finite, with proper digits, and not the negative zero. *)
Definition numberSafe (x : number) : bool :=
  match x with
  | Zero negative => negb negative
  | Finite _ ds _ => digitsOk ds
  | _ => false
  end.

Fixpoint distinct (keys : list string) : bool :=
  match keys with
  | [] => true
  | k :: rest => negb (existsb (String.eqb k) rest) && distinct rest
  end.

(** Values that JSON text denotes: [null], booleans, safe numbers,
    strings, and arrays and objects of these, an object having each of
    its keys once. *)
Fixpoint jsonSafe (v : value) : bool :=
  match v with
  | VNull | VBool _ | VString _ => true
  | VNumber x => numberSafe x
  | VArray elems => forallb jsonSafe elems
  | VObject props =>
      forallb (fun kv => let '(_, x) := kv in jsonSafe x) props
      && distinct (map fst props)
  | _ => false
  end.

(** [Object.is] on numbers. *)
Definition sameNumber (x y : number) : bool :=
  match x, y with
  | NaN, NaN => true
  | Infinity a, Infinity b => Bool.eqb a b
  | Zero a, Zero b => Bool.eqb a b
  | Finite a ds n, Finite b es m => Bool.eqb a b && (ds =? es) && (n =? m)%Z
  | _, _ => false
  end.

(** Deep equality of two values: primitives by [Object.is], arrays
    element by element, objects key by key whatever the order of the
    keys.  Symbols, functions and promises are equal only to
    themselves, by identity, which the model does not have: two of
    them are never found equal. *)
Fixpoint deepEqual (a b : value) : bool :=
  match a, b with
  | VUndefined, VUndefined => true
  | VNull, VNull => true
  | VBool x, VBool y => Bool.eqb x y
  | VNumber x, VNumber y => sameNumber x y
  | VBigInt x, VBigInt y => (x =? y)%Z
  | VString x, VString y => x =? y
  | VArray xs, VArray ys =>
      (fix each (xs ys : list value) : bool :=
         match xs, ys with
         | [], [] => true
         | x :: xs', y :: ys' => deepEqual x y && each xs' ys'
         | _, _ => false
         end) xs ys
  | VObject ps, VObject qs =>
      Nat.eqb (List.length ps) (List.length qs)
      && (fix every (ps : list (string * value)) : bool :=
            match ps with
            | [] => true
            | (k, x) :: ps' =>
                match lookup k qs with
                | Some y => deepEqual x y
                | None => false
                end && every ps'
            end) ps
  | _, _ => false
  end.

(** The text after a number does not go on like a number. *)
Definition numberEnd (rest : string) : bool :=
  match rest with
  | EmptyString => true
  | String c _ =>
      negb (isDigit c) && negb (Ascii.eqb c ".")
      && negb (Ascii.eqb c "e") && negb (Ascii.eqb c "E")
  end.

Definition noDigitAhead (rest : string) : bool :=
  match rest with
  | EmptyString => true
  | String c _ => negb (isDigit c)
  end.

(** [parseNumber] after the sign. *)
Definition parseMagnitude (negative : bool) (s : string) : option (number * string) :=
  let '(ip, s) := spanDigits s in
  if (ip =? "") || (String.prefix "0" ip && negb (ip =? "0")) then None
  else
    match parseFraction s with
    | None => None
    | Some (fp, s) =>
        match parseExponent s with
        | None => None
        | Some (e, s) => Some (makeNumber negative ip fp e, s)
        end
    end.

Fixpoint allWhitespace (s : string) : bool :=
  match s with
  | EmptyString => true
  | String c rest => isWhitespace c && allWhitespace rest
  end.

(** What [SerializeJSONProperty] writes for a safe value, with gap
    of two spaces. *)
Fixpoint render (indent : string) (v : value) : string :=
  match v with
  | VNull => "null"
  | VBool b => if b then "true" else "false"
  | VString s => QuoteJSONString s
  | VNumber x => numberToString x
  | VArray elems =>
      wrap "[" "]" "  " indent (indent ++ "  ") (map (render (indent ++ "  ")) elems)
  | VObject props =>
      wrap "{" "}" "  " indent (indent ++ "  ")
           (map (fun kv => let '(key, x) := kv in
                           QuoteJSONString key ++ ": " ++ render (indent ++ "  ") x)
                props)
  | _ => ""
  end.

(** Fuel that [parseValue] needs for a value. *)
Fixpoint need (v : value) : nat :=
  match v with
  | VArray elems => S (fold_right (fun x n => S (need x + n)) 0 elems)
  | VObject props =>
      S (fold_right (fun kv n => let '(_, x) := kv in S (need x + n)) 0 props)
  | _ => 1
  end.

Definition needElements (elems : list value) : nat :=
  fold_right (fun x n => S (need x + n)) 0 elems.

Definition needMembers (props : list (string * value)) : nat :=
  fold_right (fun kv n => let '(_, x) := kv in S (need x + n)) 0 props.

(** A value is read back from its text, whatever follows. *)
Definition Reads (indent : string) (v : value) : Prop :=
  forall fuel rest,
    need v <= fuel -> numberEnd rest = true ->
    parseValue fuel (render indent v ++ rest) = Some (v, rest).

Definition member (indent : string) (kv : string * value) : string :=
  let '(key, x) := kv in QuoteJSONString key ++ ": " ++ render indent x.

Definition totalLength (strs : list string) : nat :=
  fold_right (fun s n => S (String.length s + n)) 0 strs.

Definition everyMember (qs : list (string * value)) : list (string * value) -> bool :=
  fix every (ps : list (string * value)) : bool :=
    match ps with
    | [] => true
    | (k, x) :: ps' =>
        match lookup k qs with
        | Some y => deepEqual x y
        | None => false
        end && every ps'
    end.

End Json.


(** ** The command: [src/cli/commands.ts] *)

Module Cli.
Import Js.

(** What the process sees of its environment. *)
Record World := mkWorld {
  cwd : string;                                  (* process.cwd() *)
  modulePath : string;                           (* module.path of commands.ts *)
  require : string -> completion value;          (* require(id): module.exports *)
  existsSync : string -> bool;                   (* fs.existsSync(path) *)
  mkdir : string -> option error;                (* fsp.mkdir(path, { recursive: true }) *)
  writeFile : string -> string -> option error   (* fsp.writeFile(path, data, 'utf-8') *)
}.

(** Effects of a run, in order: lines printed by [console.log] and
    file-system calls issued. *)
Inductive event :=
| Log (line : string)
| Mkdir (path : string)
| WriteFile (path data : string).

(** Which statement raised. *)
Inductive kind :=
| ImportError            (* [require] threw *)
| InvalidExportError     (* the [throw] after the check of the export *)
| UnresolvedConfigError  (* the [throw] after the check of the resolved config *)
| MissingVersionError    (* the [throw] after the check of [actorspecVersion] *)
| FilesystemError        (* [fsp.mkdir] or [fsp.writeFile] rejected *)
| FactoryError           (* the exported function threw or its promise rejected *)
| RuntimeError.          (* a built-in operation threw *)

Inductive outcome (A : Type) :=
| Returned (a : A)
| Raised (k : kind) (e : error)
| Hangs.
Arguments Returned {A} a.
Arguments Raised {A} k e.
Arguments Hangs {A}.

(** A computation: the events it performs and how it ends. *)
Definition Run (A : Type) : Type := list event * outcome A.

Definition ret {A} (a : A) : Run A := ([], Returned a).

Definition bind {A B} (m : Run A) (f : A -> Run B) : Run B :=
  match m with
  | (t, Returned a) => let '(t', r) := f a in ((t ++ t')%list, r)
  | (t, Raised k e) => (t, Raised k e)
  | (t, Hangs) => (t, Hangs)
  end.

Notation "x <- m ;; k" := (bind m (fun x => k))
  (at level 61, m at next level, right associativity).
Notation "m ;; k" := (bind m (fun _ => k))
  (at level 61, right associativity).

Definition raise {A} (k : kind) (e : error) : Run A := ([], Raised k e).

Definition try {A} (k : kind) (c : completion A) : Run A :=
  match c with
  | Normal a => ret a
  | Throw e => raise k e
  end.

Definition consoleLog (line : string) : Run unit := ([Log line], Returned tt).

Definition Error (msg : string) : error := mkError "Error" msg.

(** [f()] *)
Definition call (f : value) : Run value :=
  match f with
  | VFunction _ body => try FactoryError body
  | _ => raise RuntimeError (TypeError "configOrInit is not a function")
  end.

(** [await v] *)
Definition await (v : value) : Run value :=
  match Await v with
  | Some c => try FactoryError c
  | None => ([], Hangs)
  end.

Definition fspMkdir (w : World) (path : string) : Run unit :=
  ([Mkdir path],
   match mkdir w path with
   | None => Returned tt
   | Some e => Raised FilesystemError e
   end).

Definition fspWriteFile (w : World) (path : string) (data : option string) : Run unit :=
  match data with
  | None =>
      raise RuntimeError
        (TypeError "The data argument must be of type string. Received undefined")
  | Some text =>
      ([WriteFile path text],
       match writeFile w path text with
       | None => Returned tt
       | Some e => Raised FilesystemError e
       end)
  end.

Definition absPath (w : World) (filepath : string) : string :=
  let cwd := cwd w in
  Path.resolve cwd [cwd; filepath].

(** Given a filepath which we assume is relative to CWD, resolve it
    relative to this file (module), so it can be passed to require(). *)
Definition resolvePath (w : World) (filepath : string) : string :=
  Path.relative (cwd w) (modulePath w) (absPath w filepath).

Record Args := mkArgs {
  config : string;        (* path to config file, relative to CWD *)
  outDir : option string; (* dir where actorspec.json is generated, relative to CWD *)
  silent : option bool
}.

Definition outDirUsed (w : World) (outDir : option string) : string :=
  let detected := if existsSync w (absPath w "./.actor") then "./.actor" else "." in
  match outDir with
  | Some dir => if truthy (VString dir) then dir else detected
  | None => detected
  end.

(** Given a path to an actorspec.js file, resolve the config and export
    it as JSON to out path. *)
Definition generate (w : World) (args : Args) : Run unit :=
  let unresolvedConfigPath := config args in
  let log :=
    match silent args with
    | Some true => fun _ : string => ret tt
    | _ => consoleLog
    end in
  let absConfigPath := absPath w unresolvedConfigPath in
  let configPath := resolvePath w unresolvedConfigPath in
  log ("Importing file from " ++ absConfigPath) ;;
  exports <- try ImportError (require w configPath) ;;
  configOrInit <- try RuntimeError (Get exports "default") ;;
  (if negb (truthy configOrInit)
      || negb (includes ["function"; "object"] (typeof configOrInit))
   then
     got <- try RuntimeError (ToString configOrInit) ;;
     raise InvalidExportError
       (Error ("Failed to import actorspec from path " ++ absConfigPath
               ++ ", got " ++ got ++ " instead"))
   else ret tt) ;;
  log "Actorspec found! Resolving..." ;;
  resolvedConfig <-
    (if typeof configOrInit =? "function"
     then (r <- call configOrInit ;; await r)
     else ret configOrInit) ;;
  (if negb (truthy resolvedConfig) || negb (typeof configOrInit =? "object")
   then
     got <- try RuntimeError (ToString configOrInit) ;;
     raise UnresolvedConfigError
       (Error ("Failed to import actorspec from path " ++ absConfigPath
               ++ ", the import did not resolve to object, got " ++ got ++ " instead"))
   else ret tt) ;;
  actorspecVersion <- try RuntimeError (Get resolvedConfig "actorspecVersion") ;;
  (if negb (truthy actorspecVersion)
   then
     raise MissingVersionError
       (Error ("Invalid actorspec object imported from path " ++ absConfigPath
               ++ ", config.actorspecVersion is missing"))
   else ret tt) ;;
  jsonConfig <- try RuntimeError (Json.stringify resolvedConfig 2) ;;
  let outDirUsed := outDirUsed w (outDir args) in
  let absOutDirPath := absPath w outDirUsed in
  let absOutFilePath := Path.resolve (cwd w) [absOutDirPath; "actorspec.json"] in
  log ("Writing resolved config to file " ++ absOutFilePath) ;;
  fspMkdir w absOutDirPath ;;
  fspWriteFile w absOutFilePath jsonConfig ;;
  log "Done!".

(** *** Observations on a run *)

Definition isLog (e : event) : bool :=
  match e with
  | Log _ => true
  | _ => false
  end.

(** The file-system calls of a run. *)
Definition fsCalls (r : Run unit) : list event :=
  filter (fun e => negb (isLog e)) (fst r).

(** The lines printed by a run. *)
Definition printed (r : Run unit) : list event := filter isLog (fst r).

(** The files a run hands to [fsp.writeFile]: path and content. *)
Definition filesWritten (r : Run unit) : list (string * string) :=
  flat_map (fun e => match e with
                     | WriteFile p d => [(p, d)]
                     | _ => []
                     end) (fst r).

Definition raisedKind (r : Run unit) : option kind :=
  match snd r with
  | Raised k _ => Some k
  | _ => None
  end.

Definition raisedMessage (r : Run unit) : option string :=
  match snd r with
  | Raised _ e => Some (message e)
  | _ => None
  end.

(** A module as TypeScript compiles [export default x]. *)
Definition moduleExporting (x : value) : completion value :=
  Normal (VObject [("__esModule", VBool true); ("default", x)]).

(** A run with what it printed left out. *)
Definition quiet {A} (m : Run A) : Run A :=
  (filter (fun e => negb (isLog e)) (fst m), snd m).

(** The same arguments with [silent: true]. *)
Definition silenced (a : Args) : Args := mkArgs (config a) (outDir a) (Some true).

End Cli.

(** ** A concrete process *)

Module Example.
Import Js Cli.

Definition one : number := Finite false "1" 1.

(** [{ actorspecVersion: 1, actor: { title: "Demo" } }] *)
Definition demo : value :=
  VObject [("actorspecVersion", VNumber one);
           ("actor", VObject [("title", VString "Demo")])].

Definition toolDir : string := "/opt/actor-spec/dist/cjs/cli".

(** A loader that knows one module, [/work/actorspec.config.js], whose
    default export is [x]; specifiers are resolved against the
    directory of the requiring module. *)
Definition loader (x : value) (id : string) : completion value :=
  if Path.resolve "/work" [toolDir; id] =? "/work/actorspec.config.js"
  then moduleExporting x
  else Throw (mkError "Error" ("Cannot find module '" ++ id ++ "'")).

(** The process runs in [/work]; [dotActor] tells whether
    [/work/.actor] exists; the file system accepts every call. *)
Definition world (x : value) (dotActor : bool) : World :=
  mkWorld "/work" toolDir (loader x)
          (fun p => dotActor && (p =? "/work/.actor"))
          (fun _ => None) (fun _ _ => None).

(** The same with a read-only file system. *)
Definition readOnlyWorld (x : value) : World :=
  mkWorld "/work" toolDir (loader x) (fun _ => false)
          (fun p => Some (mkError "Error"
                            ("EACCES: permission denied, mkdir '" ++ p ++ "'")))
          (fun _ _ => None).

(** The same with a full disk: directories can be made, nothing can
    be written. *)
Definition fullDiskWorld (x : value) : World :=
  mkWorld "/work" toolDir (loader x) (fun _ => false) (fun _ => None)
          (fun _ _ => Some (mkError "Error" "ENOSPC: no space left on device, write")).

Definition args (outDir : option string) : Args :=
  mkArgs "actorspec.config.js" outDir None.

(** [() => ({ actorspecVersion: 1, actor: { title: "Demo" } })] *)
Definition syncFactory : value :=
  VFunction "() => ({ actorspecVersion: 1, actor: { title: 'Demo' } })" (Normal demo).

(** [async () => ({ actorspecVersion: 1, actor: { title: "Demo" } })] *)
Definition asyncFactory : value :=
  VFunction "async () => ({ actorspecVersion: 1, actor: { title: 'Demo' } })"
            (Normal (VPromise (Fulfilled demo))).

(** [() => ({})] *)
Definition emptyFactory : value := VFunction "() => ({})" (Normal (VObject [])).

End Example.

(** ** The claims of the specification, where they need a definition *)

Import Js Cli.

(** The rule of the specification for the output directory, as the
    claim words it: the caller's [outDir] whenever one is supplied;
    otherwise [.actor] under the working directory if it exists;
    otherwise the working directory. *)
Definition specOutDir (w : World) (outDir : option string) : string :=
  match outDir with
  | Some dir => absPath w dir
  | None =>
      if existsSync w (Path.inDirectory (absPath w ".") ".actor")
      then Path.inDirectory (absPath w ".") ".actor"
      else absPath w "."
  end.

(** The primitive values other than symbols. *)
Definition plainPrimitive (c : value) : bool :=
  match c with
  | VUndefined | VNull | VBool _ | VNumber _ | VBigInt _ | VString _ => true
  | _ => false
  end.

(** [{ actorspecVersion: 1, pricing: { value: Infinity } }] *)
Definition unboundedPrice : value :=
  VObject [("actorspecVersion", VNumber Example.one);
           ("pricing", VObject [("value", VNumber (Infinity false))])].

(** ** How far a run gets *)

Module Progress.
Import Js Cli.

(** The [log] of a run: [console.log], or nothing when [silent]. *)
Definition logger (args : Args) : string -> Run unit :=
  match silent args with
  | Some true => fun _ : string => ret tt
  | _ => consoleLog
  end.

(** What [log(line)] prints in that run. *)
Definition said (args : Args) (line : string) : list event :=
  match silent args with
  | Some true => []
  | _ => [Log line]
  end.

(** [absOutDirPath] and [absOutFilePath]. *)
Definition outDirPath (w : World) (args : Args) : string :=
  absPath w (outDirUsed w (outDir args)).

Definition outFilePath (w : World) (args : Args) : string :=
  Path.resolve (cwd w) [outDirPath w args; "actorspec.json"].

(** The four progress lines, in the order of the source. *)
Definition progressLines (w : World) (args : Args) : list string :=
  ["Importing file from " ++ absPath w (config args);
   "Actorspec found! Resolving...";
   "Writing resolved config to file " ++ outFilePath w args;
   "Done!"].

(** [text] is [JSON.stringify(c, null, 2)] for the default export [c]
    of the config module, [c] being a truthy value of type [object]
    with a truthy [actorspecVersion]. *)
Definition serialisedExport (w : World) (args : Args) (text : string) : Prop :=
  exists m c version,
    require w (resolvePath w (config args)) = Normal m
    /\ Get m "default" = Normal c
    /\ typeof c = "object" /\ truthy c = true
    /\ Get c "actorspecVersion" = Normal version /\ truthy version = true
    /\ Json.stringify c 2 = Normal (Some text).

(** The events of the first [n] progress lines. *)
Definition early (w : World) (args : Args) (n : nat) : list event :=
  flat_map (said args) (firstn n (progressLines w args)).

End Progress.

(* ================================================================== *)
(** * Part II: properties                                             *)
(* ================================================================== *)

(** ** Strings *)

Module StrFacts.
Import Str.

Lemma append_assoc (a b c : string) : (a ++ b) ++ c = a ++ (b ++ c).
Proof. induction a as [|x a IH]; simpl; [reflexivity | now rewrite IH]. Qed.

Lemma append_nil_r (a : string) : a ++ "" = a.
Proof. induction a as [|x a IH]; simpl; [reflexivity | now rewrite IH]. Qed.

Lemma length_append (a b : string) :
  String.length (a ++ b) = String.length a + String.length b.
Proof. induction a as [|x a IH]; simpl; [reflexivity | now rewrite IH]. Qed.

Lemma prefix_iff (p s : string) :
  String.prefix p s = true <-> exists post, s = p ++ post.
Proof.
  revert s; induction p as [|c p IH]; intros s.
  - destruct s; simpl; split; eauto.
  - destruct s as [|d s]; simpl.
    + split; [discriminate | intros [post H]; discriminate].
    + destruct (ascii_dec c d) as [->|Hne].
      * rewrite IH. split; intros [post H]; exists post.
        -- now subst.
        -- now inversion H.
      * split; [discriminate|]. intros [post H]. congruence.
Qed.

Lemma hasSubstring_iff (needle hay : string) :
  hasSubstring needle hay = true <-> Contains needle hay.
Proof.
  induction hay as [|c hay IH].
  - cbn [hasSubstring]. rewrite orb_false_r, prefix_iff. split.
    + intros [post H]. now exists "", post.
    + intros [pre [post H]].
      destruct pre; [now exists post|discriminate].
  - cbn [hasSubstring]. rewrite orb_true_iff, prefix_iff, IH. split.
    + intros [[post H]|[pre [post H]]].
      * now exists "", post.
      * exists (String c pre), post. simpl. now rewrite H.
    + intros [pre [post H]]. destruct pre as [|d pre].
      * left. now exists post.
      * right. simpl in H. inversion H. now exists pre, post.
Qed.

Lemma hasSubstring_false (needle hay : string) :
  hasSubstring needle hay = false -> ~ Contains needle hay.
Proof.
  intros H C. apply hasSubstring_iff in C. congruence.
Qed.

Lemma split_nonempty (c : ascii) (s : string) : split c s <> [].
Proof.
  destruct s as [|d s]; simpl; [discriminate|].
  destruct (Ascii.eqb d c); [discriminate|].
  destruct (split c s); discriminate.
Qed.

Lemma split_append (c : ascii) (a b : string) :
  split c (a ++ String c b) = (split c a ++ split c b)%list.
Proof.
  induction a as [|d a IH]; simpl.
  - now rewrite Ascii.eqb_refl.
  - destruct (Ascii.eqb d c); [now rewrite IH|].
    rewrite IH. pose proof (split_nonempty c a) as Hn.
    destruct (split c a); [contradiction|reflexivity].
Qed.

Lemma split_lacks (c : ascii) (s : string) :
  lacks c s = true -> split c s = [s].
Proof.
  induction s as [|d s IH]; simpl; [reflexivity|].
  intros H. apply andb_true_iff in H as [Hd Hs].
  apply negb_true_iff in Hd. rewrite Hd, (IH Hs). reflexivity.
Qed.

Lemma split_pieces_lack (c : ascii) (s : string) :
  Forall (fun piece => lacks c piece = true) (split c s).
Proof.
  induction s as [|d s IH]; simpl.
  - now constructor.
  - destruct (Ascii.eqb d c) eqn:E; [now constructor|].
    destruct (split c s) as [|p ps]; [now constructor; simpl; rewrite ?E|].
    inversion IH; subst. constructor; [|assumption].
    simpl. now rewrite E.
Qed.

Lemma split_concat (c : ascii) (segs : list string) :
  Forall (fun seg => lacks c seg = true) segs -> segs <> [] ->
  split c (String.concat (String c "") segs) = segs.
Proof.
  induction segs as [|x segs IH]; intros Hall Hne; [contradiction|].
  inversion Hall; subst. destruct segs as [|y segs].
  - simpl. now apply split_lacks.
  - change (String.concat (String c "") (x :: y :: segs))
      with (x ++ String c (String.concat (String c "") (y :: segs))).
    rewrite split_append, split_lacks by assumption.
    rewrite IH by (assumption || discriminate). reflexivity.
Qed.

Lemma concat_snoc (sep : string) (segs : list string) (x : string) :
  segs <> [] ->
  String.concat sep (segs ++ [x]) = String.concat sep segs ++ sep ++ x.
Proof.
  induction segs as [|y segs IH]; intros Hne; [contradiction|].
  destruct segs as [|z segs].
  - reflexivity.
  - change (String.concat sep ((y :: z :: segs) ++ [x]))
      with (y ++ sep ++ String.concat sep ((z :: segs) ++ [x])).
    rewrite IH by discriminate.
    change (String.concat sep (y :: z :: segs))
      with (y ++ sep ++ String.concat sep (z :: segs)).
    now rewrite !append_assoc.
Qed.

End StrFacts.

(** ** Paths *)

Module PathFacts.
Import Str StrFacts Path.

Lemma plain_inv (seg : string) :
  plain seg = true ->
  lacks sep seg = true /\ seg <> "" /\ (seg =? ".") = false /\ (seg =? "..") = false.
Proof.
  unfold plain. rewrite !andb_true_iff, !negb_true_iff.
  intros [[[H1 H2] H3] H4]. repeat split; try assumption.
  now apply String.eqb_neq.
Qed.

Lemma step_plain (a : bool) (res : list string) (seg : string) :
  plain seg = true -> normalizeStep a res seg = seg :: res.
Proof.
  intros H. apply plain_inv in H as (_ & H2 & H3 & H4).
  apply String.eqb_neq in H2. unfold normalizeStep.
  now rewrite H2, H3, H4.
Qed.

Lemma step_skip (a : bool) (res : list string) :
  normalizeStep a res "" = res.
Proof. reflexivity. Qed.

Lemma fold_plain (a : bool) (segs res : list string) :
  allPlain segs ->
  fold_left (normalizeStep a) segs res = (rev segs ++ res)%list.
Proof.
  revert res. induction segs as [|x segs IH]; intros res H; [reflexivity|].
  inversion H; subst. simpl. rewrite step_plain, IH by assumption.
  now rewrite <- List.app_assoc.
Qed.

Lemma step_keeps_plain (res : list string) (seg : string) :
  lacks sep seg = true -> allPlain res -> allPlain (normalizeStep false res seg).
Proof.
  intros Hl Hres. unfold normalizeStep.
  destruct (seg =? "") eqn:E1; [assumption|].
  destruct (seg =? ".") eqn:E2; [assumption|]. simpl.
  destruct (seg =? "..") eqn:E3.
  - destruct res as [|l res]; [assumption|].
    inversion Hres; subst. destruct (l =? ".."); assumption.
  - constructor; [|assumption]. unfold plain. now rewrite Hl, E1, E2, E3.
Qed.

Lemma fold_keeps_plain (segs res : list string) :
  Forall (fun seg => lacks sep seg = true) segs -> allPlain res ->
  allPlain (fold_left (normalizeStep false) segs res).
Proof.
  revert res. induction segs as [|x segs IH]; intros res Hs Hres; [assumption|].
  inversion Hs; subst. simpl. apply IH; [assumption|].
  now apply step_keeps_plain.
Qed.

Lemma allPlain_rev (segs : list string) : allPlain segs -> allPlain (rev segs).
Proof. apply Forall_rev. Qed.

Lemma normalizeSegments_plain (segs : list string) :
  Forall (fun seg => lacks sep seg = true) segs ->
  allPlain (normalizeSegments false segs).
Proof.
  intros H. apply allPlain_rev. apply fold_keeps_plain; [assumption|constructor].
Qed.

(** [".."] once for each segment on top of the stack removes them all. *)
Lemma fold_ups (a : bool) (top rest : list string) :
  allPlain top ->
  fold_left (normalizeStep a) (repeat ".." (List.length top)) (top ++ rest)%list = rest.
Proof.
  induction top as [|x top IH]; intros H; [reflexivity|].
  inversion H as [|? ? Hx Htop]; subst.
  apply plain_inv in Hx as (_ & _ & _ & Hx).
  cbn [List.length repeat app fold_left].
  replace (normalizeStep a (x :: top ++ rest) "..") with (top ++ rest)%list
    by (unfold normalizeStep; cbn [String.eqb Ascii.eqb Bool.eqb orb]; now rewrite Hx).
  now apply IH.
Qed.

Lemma concat_plain_nonempty (segs : list string) :
  allPlain segs -> segs <> [] -> String.concat "/" segs <> "".
Proof.
  intros H Hne. destruct segs as [|x segs]; [contradiction|].
  inversion H as [|? ? Hx _]; subst. apply plain_inv in Hx as (_ & Hx & _).
  destruct x; [contradiction|]. destruct segs; discriminate.
Qed.

Lemma allPlain_lacks (segs : list string) :
  allPlain segs -> Forall (fun seg => lacks sep seg = true) segs.
Proof.
  apply Forall_impl. intros seg H. now apply plain_inv in H.
Qed.

Lemma fold_split_rooted (a : bool) (segs : list string) :
  allPlain segs ->
  fold_left (normalizeStep a) (split sep (rooted segs)) [] = rev segs.
Proof.
  intros H. unfold rooted. cbn [split]. rewrite Ascii.eqb_refl.
  destruct segs as [|x segs]; [reflexivity|].
  change "/" with (String sep "").
  rewrite split_concat by (auto using allPlain_lacks || discriminate).
  change (fold_left (normalizeStep a) ("" :: x :: segs) [])
    with (fold_left (normalizeStep a) (x :: segs) (normalizeStep a [] "")).
  rewrite step_skip, fold_plain by assumption.
  now rewrite List.app_nil_r.
Qed.

(** Normalising an absolute path followed by more text: the segments
    of the path are on the stack when the rest is read. *)
Lemma normalize_rooted_then (a : bool) (segs : list string) (more : string) :
  allPlain segs ->
  normalizeSegments a (split sep (rooted segs ++ String sep more))
  = rev (fold_left (normalizeStep a) (split sep more) (rev segs)).
Proof.
  intros H. unfold normalizeSegments.
  now rewrite split_append, fold_left_app, fold_split_rooted.
Qed.

Lemma isAbsolute_inv (p : string) :
  isAbsolute p = true -> exists rest, p = String sep rest.
Proof.
  destruct p as [|c p]; [discriminate|]. simpl. intros H.
  apply Ascii.eqb_eq in H. subst. now exists p.
Qed.

Lemma resolveLoop_absolute (cwd : string) (revArgs : list string) (acc : string) :
  isAbsolute cwd = true ->
  exists resolvedPath, resolveLoop cwd revArgs acc = (resolvedPath, true).
Proof.
  intros Hc. revert acc. induction revArgs as [|p l IH]; intros acc; simpl.
  - destruct (isAbsolute_inv _ Hc) as [rest ->]. simpl. eauto.
  - destruct (p =? ""); [apply IH|].
    destruct (isAbsolute p); [eauto|apply IH].
Qed.

(** With an absolute working directory, [resolve] returns an absolute
    path of ordinary segments. *)
Lemma resolve_rooted (cwd : string) (args : list string) :
  isAbsolute cwd = true ->
  exists segs, allPlain segs /\ resolve cwd args = rooted segs.
Proof.
  intros Hc. unfold resolve.
  destruct (resolveLoop_absolute cwd (rev args) "" Hc) as [rp ->].
  cbn [negb]. exists (normalizeSegments false (split sep rp)). split.
  - apply normalizeSegments_plain, split_pieces_lack.
  - reflexivity.
Qed.

Lemma resolve_one (cwd a : string) :
  isAbsolute a = true ->
  resolve cwd [a] = String sep (normalizeString (a ++ "/") false).
Proof.
  intros Ha. destruct (isAbsolute_inv _ Ha) as [rest ->].
  reflexivity.
Qed.

Lemma resolve_two_empty (cwd a : string) :
  isAbsolute a = true -> resolve cwd [a; ""] = resolve cwd [a].
Proof.
  intros Ha. destruct (isAbsolute_inv _ Ha) as [rest ->]. reflexivity.
Qed.

Lemma resolve_two (cwd a q : string) :
  isAbsolute a = true -> q <> "" -> isAbsolute q = false ->
  resolve cwd [a; q] = String sep (normalizeString (a ++ String sep (q ++ "/")) false).
Proof.
  intros Ha Hq Hr. destruct (isAbsolute_inv _ Ha) as [rest ->].
  apply String.eqb_neq in Hq. unfold resolve. cbn [rev app resolveLoop].
  rewrite Hq, Hr. reflexivity.
Qed.

Lemma rooted_absolute (segs : list string) : isAbsolute (rooted segs) = true.
Proof. reflexivity. Qed.

(** [resolve] leaves an already resolved path as it is. *)
Lemma resolve_rooted_id (cwd : string) (segs : list string) :
  allPlain segs -> resolve cwd [rooted segs] = rooted segs.
Proof.
  intros H. rewrite resolve_one by apply rooted_absolute.
  unfold normalizeString. change (rooted segs ++ "/") with (rooted segs ++ String sep "").
  rewrite normalize_rooted_then by assumption.
  cbn [split fold_left]. rewrite step_skip, rev_involutive. reflexivity.
Qed.

Lemma plain_relative (seg : string) :
  lacks sep seg = true -> isAbsolute seg = false.
Proof.
  destruct seg as [|c seg]; [reflexivity|]. simpl.
  intros H. apply andb_true_iff in H as [H _]. now apply negb_true_iff in H.
Qed.

(** Resolving one ordinary name against a resolved directory appends it. *)
Lemma resolve_rooted_name (cwd : string) (segs : list string) (name : string) :
  allPlain segs -> plain name = true ->
  resolve cwd [rooted segs; name] = rooted (segs ++ [name]).
Proof.
  intros H Hn. pose proof (plain_inv _ Hn) as (Hl & Hne & _).
  rewrite resolve_two by (auto using rooted_absolute, plain_relative).
  unfold normalizeString. rewrite normalize_rooted_then by assumption.
  change (name ++ "/") with (name ++ String sep "").
  rewrite split_append, split_lacks by assumption.
  cbn [split app fold_left]. rewrite step_skip, step_plain by assumption.
  cbn [rev]. rewrite rev_involutive. reflexivity.
Qed.

Lemma segments_rooted (segs : list string) :
  allPlain segs -> segments (rooted segs) = segs.
Proof.
  intros H. unfold segments, rooted. cbn [split]. rewrite Ascii.eqb_refl.
  cbn [filter String.eqb negb].
  destruct segs as [|x segs]; [reflexivity|].
  change "/" with (String sep "").
  rewrite split_concat by (auto using allPlain_lacks || discriminate).
  apply forallb_filter_id. apply forallb_forall. intros seg Hin.
  unfold allPlain in H. rewrite Forall_forall in H.
  apply H in Hin. apply plain_inv in Hin as (_ & Hne & _).
  apply negb_true_iff. now apply String.eqb_neq.
Qed.

Lemma dropCommon_spec (from to fromRest toRest : list string) :
  dropCommon from to = (fromRest, toRest) ->
  exists common, from = (common ++ fromRest)%list /\ to = (common ++ toRest)%list.
Proof.
  revert to. induction from as [|f from IH]; intros to H.
  - simpl in H. inversion H; subst. now exists [].
  - destruct to as [|t to]; simpl in H.
    + inversion H; subst. now exists [].
    + destruct (String.eqb_spec f t) as [->|Hne].
      * apply IH in H as [common [-> ->]]. now exists (t :: common).
      * inversion H; subst. now exists [].
Qed.

Lemma map_const_repeat {A B} (b : B) (l : list A) :
  map (fun _ => b) l = repeat b (List.length l).
Proof. induction l as [|x l IH]; simpl; [reflexivity | now rewrite IH]. Qed.

Lemma ups_lack (n : nat) : Forall (fun seg => lacks sep seg = true) (repeat ".." n).
Proof. induction n; simpl; constructor; auto. Qed.

(** Walking from [from] along the relative path that [relative]
    computes arrives at [to]. *)
Lemma walk_relative (a : bool) (common fromRest toRest : list string) :
  allPlain fromRest -> allPlain toRest ->
  fold_left (normalizeStep a)
    (map (fun _ => "..") fromRest ++ toRest)%list
    (rev (common ++ fromRest))
  = rev (common ++ toRest).
Proof.
  intros Hf Ht. rewrite fold_left_app, map_const_repeat, rev_app_distr.
  rewrite <- (length_rev fromRest).
  rewrite fold_ups by now apply allPlain_rev.
  rewrite fold_plain by assumption. now rewrite rev_app_distr.
Qed.

Lemma allPlain_app_inv (l1 l2 : list string) :
  allPlain (l1 ++ l2) -> allPlain l1 /\ allPlain l2.
Proof. apply Forall_app. Qed.

(** The relative path from a resolved directory to a resolved target
    leads from the one to the other. *)
Lemma resolve_relative (cwd : string) (fromSegs toSegs : list string) :
  allPlain fromSegs -> allPlain toSegs ->
  resolve cwd [rooted fromSegs; relative cwd (rooted fromSegs) (rooted toSegs)]
  = rooted toSegs.
Proof.
  intros Hf Ht. unfold relative.
  destruct (String.eqb_spec (rooted fromSegs) (rooted toSegs)) as [E|_].
  { rewrite resolve_two_empty by apply rooted_absolute.
    rewrite E. now apply resolve_rooted_id. }
  rewrite !resolve_rooted_id by assumption.
  destruct (String.eqb_spec (rooted fromSegs) (rooted toSegs)) as [E|_].
  { rewrite resolve_two_empty by apply rooted_absolute.
    rewrite E. now apply resolve_rooted_id. }
  rewrite !segments_rooted by assumption.
  destruct (dropCommon fromSegs toSegs) as [fromRest toRest] eqn:D.
  apply dropCommon_spec in D as [common [-> ->]].
  apply allPlain_app_inv in Hf as [Hc Hfr].
  apply allPlain_app_inv in Ht as [_ Htr].
  set (rel := (map (fun _ => "..") fromRest ++ toRest)%list).
  assert (Hlack : Forall (fun seg => lacks sep seg = true) rel).
  { apply Forall_app. split.
    - rewrite map_const_repeat. apply ups_lack.
    - now apply allPlain_lacks. }
  destruct rel as [|r rel'] eqn:R.
  { (* both remainders are empty: the two paths are the same *)
    subst rel. apply app_eq_nil in R as [R1 ->].
    destruct fromRest; [|discriminate]. cbn [String.concat].
    rewrite resolve_two_empty by apply rooted_absolute.
    apply resolve_rooted_id. apply Forall_app; auto. }
  assert (Hne : String.concat "/" (r :: rel') <> "").
  { inversion Hlack as [|? ? Hr _]; subst.
    assert (r <> "") as Hrne.
    { subst rel. destruct fromRest as [|f fr]; simpl in R.
      - destruct toRest as [|t tr]; [discriminate|]. inversion R; subst.
        inversion Htr as [|? ? Hp _]; subst. now apply plain_inv in Hp.
      - inversion R. discriminate. }
    destruct r; [contradiction|]. destruct rel'; discriminate. }
  assert (Hrel : isAbsolute (String.concat "/" (r :: rel')) = false).
  { inversion Hlack as [|? ? Hr _]; subst.
    destruct r as [|c r].
    - destruct rel'; [now contradiction Hne|]. exfalso.
      subst rel. destruct fromRest as [|f fr]; simpl in R.
      + destruct toRest as [|t tr]; [discriminate|]. inversion R; subst.
        inversion Htr as [|? ? Hp _]; subst. now apply plain_inv in Hp.
      + inversion R.
    - simpl in Hr. apply andb_true_iff in Hr as [Hr _].
      apply negb_true_iff in Hr. destruct rel'; simpl; assumption. }
  rewrite resolve_two by (auto using rooted_absolute).
  unfold normalizeString.
  rewrite normalize_rooted_then by (apply Forall_app; auto).
  change (String.concat "/" (r :: rel') ++ "/")
    with (String.concat (String sep "") (r :: rel') ++ String sep "").
  rewrite split_append, split_concat by (assumption || discriminate).
  rewrite fold_left_app. rewrite <- R. subst rel.
  rewrite walk_relative by assumption.
  cbn [split fold_left]. rewrite step_skip, rev_involutive. reflexivity.
Qed.

Lemma fold_split_slash (a : bool) (p : string) (st : list string) :
  fold_left (normalizeStep a) (split sep (p ++ "/")) st
  = fold_left (normalizeStep a) (split sep p) st.
Proof.
  change (p ++ "/") with (p ++ String sep "").
  rewrite split_append, fold_left_app. reflexivity.
Qed.

(** The resolved form of one absolute path. *)
Lemma resolve_one_rooted (cwd p : string) :
  isAbsolute p = true ->
  resolve cwd [p] = rooted (rev (fold_left (normalizeStep false) (split sep p) []))
  /\ allPlain (rev (fold_left (normalizeStep false) (split sep p) [])).
Proof.
  intros Hp. split.
  - rewrite resolve_one by assumption. unfold normalizeString, normalizeSegments.
    now rewrite fold_split_slash.
  - apply allPlain_rev, fold_keeps_plain; [apply split_pieces_lack|constructor].
Qed.

(** Resolving against an absolute path or against its resolved form
    is the same. *)
Lemma resolve_via_resolved (cwd p q : string) :
  isAbsolute p = true ->
  resolve cwd [p; q] = resolve cwd [resolve cwd [p]; q].
Proof.
  intros Hp. destruct (resolve_one_rooted cwd p Hp) as [E Hplain].
  destruct (String.eqb_spec q "") as [->|Hq].
  { rewrite !resolve_two_empty by (rewrite ?E; auto using rooted_absolute).
    rewrite E. symmetry. now apply resolve_rooted_id. }
  destruct (isAbsolute q) eqn:Hr.
  { destruct (isAbsolute_inv _ Hr) as [rest ->]. reflexivity. }
  rewrite E. rewrite !resolve_two by (auto using rooted_absolute).
  unfold normalizeString. rewrite normalize_rooted_then by assumption.
  unfold normalizeSegments. rewrite split_append, fold_left_app.
  now rewrite rev_involutive.
Qed.

Lemma relative_via_resolved (cwd p : string) (toSegs : list string) :
  isAbsolute p = true -> allPlain toSegs ->
  relative cwd p (rooted toSegs)
  = if p =? rooted toSegs then ""
    else relative cwd (resolve cwd [p]) (rooted toSegs).
Proof.
  intros Hp Ht. destruct (resolve_one_rooted cwd p Hp) as [E Hplain].
  assert (Eid : resolve cwd [resolve cwd [p]] = resolve cwd [p])
    by (rewrite E; now apply resolve_rooted_id).
  unfold relative. rewrite Eid, (resolve_rooted_id cwd toSegs Ht).
  destruct (p =? rooted toSegs); [reflexivity|].
  destruct (resolve cwd [p] =? rooted toSegs); reflexivity.
Qed.

(** From any absolute directory, the relative path that [relative]
    computes to a resolved target resolves back to the target. *)
Lemma resolve_relative_from (cwd p : string) (toSegs : list string) :
  isAbsolute p = true -> allPlain toSegs ->
  resolve cwd [p; relative cwd p (rooted toSegs)] = rooted toSegs.
Proof.
  intros Hp Ht. destruct (resolve_one_rooted cwd p Hp) as [E Hplain].
  rewrite relative_via_resolved by assumption.
  destruct (String.eqb_spec p (rooted toSegs)) as [->|_].
  - rewrite resolve_two_empty by apply rooted_absolute.
    now apply resolve_rooted_id.
  - rewrite resolve_via_resolved by assumption. rewrite E.
    now apply resolve_relative.
Qed.

Lemma rooted_snoc (segs : list string) (name : string) :
  allPlain segs -> rooted (segs ++ [name]) = inDirectory (rooted segs) name.
Proof.
  intros H. unfold inDirectory. destruct segs as [|x segs]; [reflexivity|].
  pose proof (concat_plain_nonempty (x :: segs) H) as Hne.
  destruct (String.eqb_spec (rooted (x :: segs)) "/") as [E|_].
  - exfalso. apply Hne; [discriminate|]. unfold rooted in E.
    now injection E as E.
  - unfold rooted. rewrite concat_snoc by discriminate. reflexivity.
Qed.

(** A file name resolved against a resolved directory is in it. *)
Lemma resolve_in_directory (cwd : string) (args : list string) (name : string) :
  isAbsolute cwd = true -> plain name = true ->
  resolve cwd [resolve cwd args; name] = inDirectory (resolve cwd args) name.
Proof.
  intros Hc Hn. destruct (resolve_rooted cwd args Hc) as [segs [Hs ->]].
  rewrite resolve_rooted_name by assumption. now apply rooted_snoc.
Qed.

(** [./name] under the working directory. *)
Lemma resolve_dot_name (cwd name : string) :
  isAbsolute cwd = true -> plain name = true ->
  resolve cwd [cwd; "./" ++ name] = inDirectory (resolve cwd [cwd; "."]) name.
Proof.
  intros Hc Hn. pose proof (plain_inv _ Hn) as (Hl & Hne & _).
  set (st := fold_left (normalizeStep false) (split sep cwd) []).
  assert (Hst : allPlain st)
    by (apply fold_keeps_plain; [apply split_pieces_lack|constructor]).
  assert (E1 : resolve cwd [cwd; "."] = rooted (rev st)).
  { rewrite resolve_two by (assumption || discriminate || reflexivity).
    unfold normalizeString, normalizeSegments.
    rewrite split_append, fold_left_app. reflexivity. }
  assert (E2 : resolve cwd [cwd; "./" ++ name] = rooted (rev st ++ [name])).
  { rewrite resolve_two by (assumption || discriminate || reflexivity).
    unfold normalizeString, normalizeSegments.
    rewrite split_append, fold_left_app. fold st.
    change (("./" ++ name) ++ "/") with ("." ++ String sep (name ++ String sep "")).
    rewrite !split_append, (split_lacks sep name Hl).
    change (split sep ".") with ["."]. change (split sep "") with [""].
    cbn [app fold_left]. rewrite step_skip.
    change (normalizeStep false st ".") with st.
    rewrite step_plain by assumption. reflexivity. }
  rewrite E1, E2. apply rooted_snoc. now apply allPlain_rev.
Qed.

(** Two resolved paths are equal only if their segments are. *)
Lemma rooted_inj (a b : list string) :
  allPlain a -> allPlain b -> rooted a = rooted b -> a = b.
Proof.
  intros Ha Hb E. rewrite <- (segments_rooted a Ha), <- (segments_rooted b Hb).
  now rewrite E.
Qed.

(** The empty path and [.] both resolve to the working directory. *)
Lemma resolve_empty_dot (cwd : string) :
  isAbsolute cwd = true -> resolve cwd [cwd; ""] = resolve cwd [cwd; "."].
Proof.
  intros Hc. rewrite resolve_two_empty by assumption.
  destruct (resolve_one_rooted cwd cwd Hc) as [-> _].
  rewrite resolve_two by (assumption || discriminate || reflexivity).
  unfold normalizeString, normalizeSegments.
  rewrite split_append, fold_left_app. reflexivity.
Qed.

(** A name under a resolved directory is not that directory. *)
Lemma inDirectory_differs (cwd : string) (args : list string) (name : string) :
  isAbsolute cwd = true -> plain name = true ->
  inDirectory (resolve cwd args) name <> resolve cwd args.
Proof.
  intros Hc Hn. destruct (resolve_rooted cwd args Hc) as [segs [Hs ->]].
  rewrite <- rooted_snoc by assumption. intros E.
  apply rooted_inj in E; [|apply Forall_app; split; [assumption|now constructor]
                          |assumption].
  apply (f_equal (@List.length string)) in E. rewrite length_app in E.
  simpl in E. lia.
Qed.

End PathFacts.


(** ** The run monad and the [silent] flag *)

Module RunFacts.
Import Js Cli.

Lemma bind_ret_l {A B} (a : A) (f : A -> Run B) : bind (ret a) f = f a.
Proof. unfold bind, ret. now destruct (f a). Qed.

Lemma bind_raise {A B} (k : kind) (e : error) (f : A -> Run B) :
  bind (raise k e) f = raise k e.
Proof. reflexivity. Qed.

Lemma bind_try_normal {A B} (k : kind) (a : A) (f : A -> Run B) :
  bind (try k (Normal a)) f = f a.
Proof. apply bind_ret_l. Qed.

Lemma bind_try_throw {A B} (k : kind) (e : error) (f : A -> Run B) :
  bind (try (A := A) k (Throw e)) f = raise k e.
Proof. reflexivity. Qed.

Lemma quiet_bind {A B} (m m' : Run A) (f g : A -> Run B) :
  quiet m = m' -> (forall a, quiet (f a) = g a) -> quiet (bind m f) = bind m' g.
Proof.
  intros <- H. destruct m as [t [a| |]]; unfold quiet; simpl; try reflexivity.
  rewrite <- H. destruct (f a) as [t' r]. simpl. now rewrite filter_app.
Qed.

Lemma quiet_try {A} (k : kind) (c : completion A) : quiet (try k c) = try k c.
Proof. now destruct c. Qed.

Lemma quiet_call (f : value) : quiet (call f) = call f.
Proof. destruct f; try reflexivity. apply quiet_try. Qed.

Lemma quiet_await (v : value) : quiet (await v) = await v.
Proof.
  unfold await. destruct (Await v) as [c|]; [apply quiet_try | reflexivity].
Qed.

Lemma quiet_raise {A} (k : kind) (e : error) : quiet (raise (A := A) k e) = raise k e.
Proof. reflexivity. Qed.

Lemma quiet_ret {A} (a : A) : quiet (ret a) = ret a.
Proof. reflexivity. Qed.

Lemma quiet_mkdir (w : World) (p : string) : quiet (fspMkdir w p) = fspMkdir w p.
Proof. reflexivity. Qed.

Lemma quiet_writeFile (w : World) (p : string) (d : option string) :
  quiet (fspWriteFile w p d) = fspWriteFile w p d.
Proof. now destruct d. Qed.

Lemma quiet_log (l : string) : quiet (consoleLog l) = ret tt.
Proof. reflexivity. Qed.

(** A run prints or not; apart from that it is the silent run. *)
Lemma generate_quiet (w : World) (args : Args) :
  quiet (generate w args) = generate w (silenced args).
Proof.
  unfold generate. cbn [silenced silent config outDir].
  assert (L : forall l,
             quiet (match silent args with
                    | Some true => fun _ : string => ret tt
                    | _ => consoleLog
                    end l) = ret tt).
  { intros l. now destruct (silent args) as [[|]|]. }
  repeat (apply quiet_bind; [|intros]); try apply L;
    repeat match goal with
      | |- context [if ?b then _ else _] => destruct b
      end;
    repeat (apply quiet_bind; [|intros]);
    auto using @quiet_try, quiet_call, quiet_await, @quiet_raise, @quiet_ret,
      quiet_mkdir, quiet_writeFile.
Qed.

Lemma snd_generate_silenced (w : World) (args : Args) :
  snd (generate w args) = snd (generate w (silenced args)).
Proof. now rewrite <- generate_quiet. Qed.

Lemma fsCalls_generate_silenced (w : World) (args : Args) :
  fsCalls (generate w args) = fst (generate w (silenced args)).
Proof. now rewrite <- generate_quiet. Qed.

Lemma filesWritten_quiet (r : Run unit) : filesWritten (quiet r) = filesWritten r.
Proof.
  unfold filesWritten, quiet. cbn [fst]. induction (fst r) as [|e t IH]; [reflexivity|].
  destruct e; simpl; now rewrite IH.
Qed.

Lemma filesWritten_generate_silenced (w : World) (args : Args) :
  filesWritten (generate w args) = filesWritten (generate w (silenced args)).
Proof. now rewrite <- generate_quiet, filesWritten_quiet. Qed.

Lemma raisedKind_generate_silenced (w : World) (args : Args) :
  raisedKind (generate w args) = raisedKind (generate w (silenced args)).
Proof. unfold raisedKind. now rewrite snd_generate_silenced. Qed.

Lemma raisedMessage_generate_silenced (w : World) (args : Args) :
  raisedMessage (generate w args) = raisedMessage (generate w (silenced args)).
Proof. unfold raisedMessage. now rewrite snd_generate_silenced. Qed.

End RunFacts.

(** ** The stages of [generate] *)

Module GenerateFacts.
Import Js Cli RunFacts.

Lemma bind_ext {A B} (m : Run A) (f g : A -> Run B) :
  (forall a, f a = g a) -> bind m f = bind m g.
Proof.
  intros H. destruct m as [t [a| |]]; simpl; try reflexivity. now rewrite H.
Qed.

(** [require] throws: the error is passed on. *)
Lemma silent_import_error (w : World) (args : Args) (e : error) :
  silent args = Some true ->
  require w (resolvePath w (config args)) = Throw e ->
  generate w args = raise ImportError e.
Proof.
  intros Hs Hr. unfold generate. rewrite Hs, Hr. reflexivity.
Qed.

(** The module has no [default] to read. *)
Lemma silent_get_error (w : World) (args : Args) (m : value) (e : error) :
  silent args = Some true ->
  require w (resolvePath w (config args)) = Normal m ->
  Get m "default" = Throw e ->
  generate w args = raise RuntimeError e.
Proof.
  intros Hs Hr Hg. unfold generate. rewrite Hs, Hr.
  rewrite bind_ret_l, bind_try_normal, Hg. reflexivity.
Qed.

(** The export does not pass the first check. *)
Lemma silent_invalid (w : World) (args : Args) (m c : value) :
  silent args = Some true ->
  require w (resolvePath w (config args)) = Normal m ->
  Get m "default" = Normal c ->
  negb (truthy c) || negb (includes ["function"; "object"] (typeof c)) = true ->
  generate w args =
    (got <- try RuntimeError (ToString c) ;;
     raise InvalidExportError
       (Error ("Failed to import actorspec from path " ++ absPath w (config args)
               ++ ", got " ++ got ++ " instead"))).
Proof.
  intros Hs Hr Hg Hc. unfold generate. rewrite Hs, Hr.
  rewrite bind_ret_l, bind_try_normal, Hg, bind_try_normal, Hc.
  destruct (ToString c) as [got|e]; reflexivity.
Qed.

(** The export is a function: whatever it returns, the second check
    looks at the type of the export and raises. *)
Lemma silent_function (w : World) (args : Args) (m : value)
      (source : string) (body : completion value) :
  silent args = Some true ->
  require w (resolvePath w (config args)) = Normal m ->
  Get m "default" = Normal (VFunction source body) ->
  generate w args =
    (resolvedConfig <- (r <- try FactoryError body ;; await r) ;;
     raise UnresolvedConfigError
       (Error ("Failed to import actorspec from path " ++ absPath w (config args)
               ++ ", the import did not resolve to object, got "
               ++ source ++ " instead"))).
Proof.
  intros Hs Hr Hg. unfold generate. rewrite Hs, Hr.
  rewrite bind_ret_l, bind_try_normal, Hg, bind_try_normal.
  cbn [truthy typeof includes existsb String.eqb Ascii.eqb Bool.eqb negb orb andb].
  rewrite !bind_ret_l. apply bind_ext. intros resolvedConfig.
  rewrite orb_true_r. reflexivity.
Qed.

(** The export is a truthy value of type [object]: it is the resolved
    config, and the run goes on to the version check and the writing. *)
Lemma silent_object (w : World) (args : Args) (m c : value) :
  silent args = Some true ->
  require w (resolvePath w (config args)) = Normal m ->
  Get m "default" = Normal c ->
  truthy c = true -> typeof c = "object" ->
  generate w args =
    (actorspecVersion <- try RuntimeError (Get c "actorspecVersion") ;;
     (if negb (truthy actorspecVersion)
      then raise MissingVersionError
             (Error ("Invalid actorspec object imported from path "
                     ++ absPath w (config args)
                     ++ ", config.actorspecVersion is missing"))
      else ret tt) ;;
     jsonConfig <- try RuntimeError (Json.stringify c 2) ;;
     fspMkdir w (absPath w (outDirUsed w (outDir args))) ;;
     fspWriteFile w
       (Path.resolve (cwd w) [absPath w (outDirUsed w (outDir args)); "actorspec.json"])
       jsonConfig ;;
     ret tt).
Proof.
  intros Hs Hr Hg Ht Ho. unfold generate. rewrite Hs, Hr.
  rewrite bind_ret_l, bind_try_normal, Hg, bind_try_normal, Ht, Ho.
  cbn [includes existsb String.eqb Ascii.eqb Bool.eqb negb orb andb].
  rewrite !bind_ret_l. rewrite Ht. cbn [negb orb]. rewrite bind_ret_l.
  apply bind_ext; intros actorspecVersion.
  apply bind_ext; intros _.
  apply bind_ext; intros jsonConfig.
  now rewrite bind_ret_l.
Qed.

(** A value that passes the first check is a function or has type
    [object]. *)
Lemma first_check_passed (c : value) :
  negb (truthy c) || negb (includes ["function"; "object"] (typeof c)) = false ->
  truthy c = true /\
  ((exists source body, c = VFunction source body) \/ typeof c = "object").
Proof.
  intros H. apply orb_false_iff in H as [H1 H2].
  apply negb_false_iff in H1. split; [assumption|].
  destruct c; try discriminate; eauto.
Qed.

(** What a function export leads to, case by case. *)
Lemma silent_function_cases (w : World) (args : Args) (m : value)
      (source : string) (body : completion value) :
  silent args = Some true ->
  require w (resolvePath w (config args)) = Normal m ->
  Get m "default" = Normal (VFunction source body) ->
  generate w args = ([], Hangs)
  \/ (exists e, generate w args = raise FactoryError e)
  \/ generate w args =
       raise UnresolvedConfigError
         (Error ("Failed to import actorspec from path " ++ absPath w (config args)
                 ++ ", the import did not resolve to object, got "
                 ++ source ++ " instead")).
Proof.
  intros Hs Hr Hg. rewrite (silent_function w args m source body Hs Hr Hg).
  destruct body as [r|e]; [|right; left; now exists e].
  rewrite bind_try_normal. unfold await.
  destruct (Await r) as [[v|e]|].
  - right; right. now rewrite bind_try_normal.
  - right; left. now exists e.
  - now left.
Qed.

(** The writing stage ends normally or in an error of the file system
    (or of [fsp.writeFile] refusing its argument). *)
Lemma write_stage_cases (w : World) (dir file : string) (j : option string) :
  snd (fspMkdir w dir ;; fspWriteFile w file j ;; ret tt) = Returned tt
  \/ exists k e,
       snd (fspMkdir w dir ;; fspWriteFile w file j ;; ret tt) = Raised k e
       /\ (k = FilesystemError \/ k = RuntimeError).
Proof.
  unfold fspMkdir, fspWriteFile, bind.
  destruct (mkdir w dir) as [e|]; [right; exists FilesystemError, e; auto|].
  destruct j as [text|]; [|right; simpl; eauto].
  destruct (writeFile w file text) as [e|]; [right; simpl; eauto|now left].
Qed.

End GenerateFacts.

(** ** Numbers in JSON text *)

Module NumberFacts.
Import Js Json StrFacts.

Lemma numberEnd_noDigit (rest : string) :
  numberEnd rest = true -> noDigitAhead rest = true.
Proof.
  destruct rest as [|c rest]; [reflexivity|]. simpl.
  rewrite !andb_true_iff. tauto.
Qed.

Lemma spanDigits_app (ds rest : string) :
  allDigits ds = true -> noDigitAhead rest = true ->
  spanDigits (ds ++ rest) = (ds, rest).
Proof.
  induction ds as [|c ds IH]; simpl.
  - intros _ H. destruct rest as [|c rest]; [reflexivity|].
    simpl in *. apply negb_true_iff in H. now rewrite H.
  - intros H Hr. apply andb_true_iff in H as [Hc Hd].
    now rewrite Hc, IH.
Qed.

Lemma allDigits_app (a b : string) :
  allDigits (a ++ b) = allDigits a && allDigits b.
Proof.
  induction a as [|c a IH]; simpl; [reflexivity|].
  now rewrite IH, andb_assoc.
Qed.

Lemma allDigits_zeros (n : nat) : allDigits (zeros n) = true.
Proof. induction n; simpl; [reflexivity|assumption]. Qed.

Lemma take_drop (n : nat) (s : string) : take n s ++ drop n s = s.
Proof.
  revert s. induction n as [|n IH]; intros [|c s]; simpl; try reflexivity.
  now rewrite IH.
Qed.

Lemma length_take (n : nat) (s : string) :
  n <= String.length s -> String.length (take n s) = n.
Proof.
  revert s. induction n as [|n IH]; intros [|c s]; simpl; intros H;
    try reflexivity; try lia.
  rewrite IH; lia.
Qed.

Lemma length_zeros (n : nat) : String.length (zeros n) = n.
Proof. induction n; simpl; congruence. Qed.

Lemma allDigits_take_drop (n : nat) (s : string) :
  allDigits s = true -> allDigits (take n s) = true /\ allDigits (drop n s) = true.
Proof.
  intros H. rewrite <- (take_drop n s), allDigits_app in H.
  now apply andb_true_iff in H.
Qed.

Lemma drop_nonempty (n : nat) (s : string) :
  n < String.length s -> drop n s <> "".
Proof.
  revert s. induction n as [|n IH]; intros [|c s]; simpl; intros H;
    try lia; try discriminate.
  apply IH. lia.
Qed.

Lemma stripTrailingZeros_zeros (n : nat) : stripTrailingZeros (zeros n) = "".
Proof. induction n; simpl; [reflexivity|]. now rewrite IHn. Qed.

Lemma stripTrailingZeros_app_zeros (ds : string) (n : nat) :
  stripTrailingZeros (ds ++ zeros n) = stripTrailingZeros ds.
Proof.
  induction ds as [|c ds IH]; simpl.
  - apply stripTrailingZeros_zeros.
  - now rewrite IH.
Qed.

Lemma countLeadingZeros_zeros_app (n : nat) (ds : string) :
  countLeadingZeros (zeros n ++ ds) = n + countLeadingZeros ds.
Proof. induction n; simpl; [reflexivity|]. now rewrite IHn. Qed.

Lemma drop_zeros_app (n : nat) (ds : string) : drop n (zeros n ++ ds) = ds.
Proof. induction n; simpl; [now destruct ds|assumption]. Qed.

Lemma drop_0 (s : string) : drop 0 s = s.
Proof. now destruct s. Qed.

(** What [digitsOk] says. *)
Lemma digitsOk_inv (ds : string) :
  digitsOk ds = true ->
  allDigits ds = true /\ stripTrailingZeros ds = ds
  /\ exists d tl, ds = String d tl /\ Ascii.eqb d "0" = false /\ isDigit d = true.
Proof.
  unfold digitsOk. rewrite !andb_true_iff, !negb_true_iff.
  intros [[[Ha Hne] Hp] Hs]. apply String.eqb_eq in Hs.
  repeat split; try assumption.
  destruct ds as [|d tl]; [discriminate|]. exists d, tl.
  simpl in Ha. apply andb_true_iff in Ha as [Hd _].
  repeat split; try assumption.
  simpl in Hp. destruct (ascii_dec "0" d) as [<-|Hn].
  - now destruct tl.
  - apply Ascii.eqb_neq. congruence.
Qed.

Lemma countLeadingZeros_head (d : ascii) (tl : string) :
  Ascii.eqb d "0" = false -> countLeadingZeros (String d tl) = 0.
Proof. intros H. simpl. now rewrite H. Qed.

(** *** The exponent *)

Lemma allDigits_string_of_uint (u : Decimal.uint) :
  allDigits (NilEmpty.string_of_uint u) = true.
Proof. induction u; simpl; auto. Qed.

Lemma allDigits_decimalOfN (n : N) : allDigits (decimalOfN n) = true.
Proof.
  unfold decimalOfN, NilZero.string_of_uint.
  destruct (N.to_uint n); try reflexivity; apply allDigits_string_of_uint.
Qed.

Lemma to_uint_nonnil (n : N) : N.to_uint n <> Decimal.Nil.
Proof.
  destruct n as [|p]; [discriminate|]. apply DecimalPos.Unsigned.to_uint_nonnil.
Qed.

Lemma uint_of_decimalOfN (n : N) :
  NilZero.uint_of_string (decimalOfN n) = Some (N.to_uint n).
Proof. apply NilZero.usu, to_uint_nonnil. Qed.

Lemma parseExponent_none (rest : string) :
  numberEnd rest = true -> parseExponent rest = Some (0%Z, rest).
Proof.
  destruct rest as [|c rest]; [reflexivity|]. simpl.
  rewrite !andb_true_iff, !negb_true_iff. intros [[[_ _] He] HE].
  now rewrite He, HE.
Qed.

Lemma parseFraction_none (rest : string) :
  match rest with
  | String c _ => Ascii.eqb c "." = false
  | EmptyString => True
  end ->
  parseFraction rest = Some ("", rest).
Proof.
  destruct rest as [|c rest]; [reflexivity|]. simpl. now intros ->.
Qed.

(** The exponent part that Number::toString writes is read back. *)
Lemma parseExponent_written (e : Z) (rest : string) :
  noDigitAhead rest = true ->
  parseExponent
    ("e" ++ ((if (e <? 0)%Z then "-" else "+") ++ decimalOfN (Z.abs_N e)) ++ rest)
  = Some (e, rest).
Proof.
  intros Hr. cbn [append parseExponent Ascii.eqb Bool.eqb orb].
  assert (Hd : spanDigits (decimalOfN (Z.abs_N e) ++ rest)
               = (decimalOfN (Z.abs_N e), rest))
    by (apply spanDigits_app; auto using allDigits_decimalOfN).
  destruct (e <? 0)%Z eqn:Hneg; cbn [append Ascii.eqb Bool.eqb];
    rewrite Hd, uint_of_decimalOfN, DecimalN.Unsigned.of_to;
    do 2 f_equal.
  - apply Z.ltb_lt in Hneg. rewrite N2Z.inj_abs_N. lia.
  - apply Z.ltb_ge in Hneg. rewrite N2Z.inj_abs_N. lia.
Qed.

Lemma parseNumber_sign (s : string) :
  parseNumber s =
    match s with
    | String c rest =>
        if Ascii.eqb c "-" then parseMagnitude true rest
        else parseMagnitude false s
    | EmptyString => parseMagnitude false s
    end.
Proof.
  destruct s as [|c rest]; [reflexivity|].
  unfold parseNumber. now destruct (Ascii.eqb c "-").
Qed.

(** An integer part without a leading zero is accepted. *)
Lemma integer_part_ok (ip : string) (d : ascii) (tl : string) :
  ip = String d tl -> Ascii.eqb d "0" = false ->
  (ip =? "") || (String.prefix "0" ip && negb (ip =? "0")) = false.
Proof.
  intros -> H. cbn [String.eqb orb String.prefix].
  destruct (ascii_dec "0" d) as [<-|_]; [discriminate|reflexivity].
Qed.

Lemma zero_integer_part :
  ("0" =? "") || (String.prefix "0" "0" && negb ("0" =? "0")) = false.
Proof. reflexivity. Qed.

(** [parseMagnitude] on an integer part followed by something else. *)
Lemma parseMagnitude_integer (negative : bool) (ip s : string) :
  allDigits ip = true -> noDigitAhead s = true ->
  (ip =? "") || (String.prefix "0" ip && negb (ip =? "0")) = false ->
  parseMagnitude negative (ip ++ s) =
    match parseFraction s with
    | None => None
    | Some (fp, s) =>
        match parseExponent s with
        | None => None
        | Some (e, s) => Some (makeNumber negative ip fp e, s)
        end
    end.
Proof.
  intros Hip Hs Hc. unfold parseMagnitude.
  now rewrite spanDigits_app, Hc by assumption.
Qed.

Lemma parseFraction_written (fp s : string) :
  allDigits fp = true -> fp <> "" -> noDigitAhead s = true ->
  parseFraction ("." ++ fp ++ s) = Some (fp, s).
Proof.
  intros Hfp Hne Hs. cbn [append parseFraction Ascii.eqb Bool.eqb].
  rewrite spanDigits_app by assumption.
  apply String.eqb_neq in Hne. now rewrite Hne.
Qed.

Lemma makeNumber_digits (negative : bool) (ip fp : string) (e n : Z) (ds : string) :
  digitsOk ds = true ->
  countLeadingZeros (ip ++ fp) = 0 ->
  stripTrailingZeros (ip ++ fp) = ds ->
  (Z.of_nat (String.length ip) + e = n)%Z ->
  makeNumber negative ip fp e = Finite negative ds n.
Proof.
  intros Hok Hlz Hs Hn. unfold makeNumber. rewrite Hlz, drop_0, Hs.
  destruct (digitsOk_inv ds Hok) as (_ & _ & d & tl & -> & _).
  cbn [String.eqb]. f_equal. lia.
Qed.

Lemma numberEnd_noDot (rest : string) :
  numberEnd rest = true ->
  match rest with
  | String c _ => Ascii.eqb c "." = false
  | EmptyString => True
  end.
Proof.
  destruct rest as [|c rest']; [intros; exact I|]. simpl.
  rewrite !andb_true_iff, !negb_true_iff. tauto.
Qed.

(** The digits and the exponent are read back from what
    Number::toString writes, in each of its five layouts. *)
Lemma parseMagnitude_digitsToString
    (negative : bool) (ds : string) (n : Z) (rest : string) :
  digitsOk ds = true -> numberEnd rest = true ->
  parseMagnitude negative (digitsToString ds n ++ rest)
  = Some (Finite negative ds n, rest).
Proof.
  intros Hok Hend.
  destruct (digitsOk_inv ds Hok) as (Hall & Hstrip & d & tl & Eds & Hd0 & Hd).
  pose proof (numberEnd_noDigit rest Hend) as Hnd.
  pose proof (numberEnd_noDot rest Hend) as Hdot.
  assert (Hlz : countLeadingZeros ds = 0)
    by (rewrite Eds; now apply countLeadingZeros_head).
  unfold digitsToString.
  set (k := Z.of_nat (String.length ds)).
  destruct ((k <=? n) && (n <=? 21))%Z eqn:C6.
  { (* digits, then zeros *)
    apply andb_true_iff in C6 as [C6 _]. apply Z.leb_le in C6.
    rewrite parseMagnitude_integer; try assumption.
    - rewrite parseFraction_none, parseExponent_none by assumption.
      do 2 f_equal. apply makeNumber_digits; try assumption.
      + rewrite append_nil_r, Eds. cbn [append]. now apply countLeadingZeros_head.
      + now rewrite append_nil_r, stripTrailingZeros_app_zeros.
      + rewrite length_append, length_zeros. subst k. lia.
    - now rewrite allDigits_app, Hall, allDigits_zeros.
    - apply (integer_part_ok _ d (tl ++ zeros (Z.to_nat (n - k))));
        [now rewrite Eds|assumption]. }
  destruct ((0 <? n) && (n <=? 21))%Z eqn:C7.
  { (* digits with a decimal point inside *)
    apply andb_true_iff in C7 as [C7 C7']. apply Z.ltb_lt in C7.
    apply Z.leb_le in C7'.
    assert (Hlt : Z.to_nat n < String.length ds).
    { apply andb_false_iff in C6 as [C6|C6].
      - apply Z.leb_gt in C6. subst k. lia.
      - apply Z.leb_gt in C6. lia. }
    destruct (allDigits_take_drop (Z.to_nat n) ds Hall) as [Ht Hdr].
    assert (Etake : exists tl', take (Z.to_nat n) ds = String d tl').
    { rewrite Eds. destruct (Z.to_nat n) eqn:En; [lia|]. simpl. eauto. }
    destruct Etake as [tl' Etake].
    rewrite append_assoc.
    rewrite parseMagnitude_integer;
      [|assumption|reflexivity|now apply (integer_part_ok _ d tl')].
    rewrite append_assoc.
    rewrite parseFraction_written
      by (assumption || now apply drop_nonempty).
    rewrite parseExponent_none by assumption.
    do 2 f_equal. apply makeNumber_digits; try assumption.
    - now rewrite take_drop.
    - now rewrite take_drop.
    - rewrite length_take by lia. lia. }
  destruct ((-6 <? n) && (n <=? 0))%Z eqn:C8.
  { (* zero, point, zeros, digits *)
    apply andb_true_iff in C8 as [_ C8]. apply Z.leb_le in C8.
    change ("0." ++ zeros (Z.to_nat (- n)) ++ ds)
      with ("0" ++ "." ++ zeros (Z.to_nat (- n)) ++ ds).
    rewrite !append_assoc.
    rewrite parseMagnitude_integer;
      [|reflexivity|reflexivity|exact zero_integer_part].
    rewrite <- (append_assoc (zeros _) ds rest).
    rewrite parseFraction_written; try assumption.
    - rewrite parseExponent_none by assumption.
      do 2 f_equal. unfold makeNumber.
      change ("0" ++ zeros (Z.to_nat (- n)) ++ ds)
        with (zeros (S (Z.to_nat (- n))) ++ ds).
      rewrite countLeadingZeros_zeros_app, Hlz.
      rewrite Nat.add_0_r, drop_zeros_app, Hstrip.
      rewrite Eds at 1. cbn [String.eqb]. f_equal. cbn [String.length]. lia.
    - now rewrite allDigits_app, Hall, allDigits_zeros.
    - rewrite Eds. destruct (zeros (Z.to_nat (- n))); discriminate. }
  (* exponential notation *)
  rewrite Eds in Hok, Hall, Hstrip |- *. clear Eds Hlz C6 C7 C8 k.
  destruct tl as [|c tl].
  - change (String d ("e" ++ (if (n - 1 <? 0)%Z then "-" else "+")
                      ++ decimalOfN (Z.abs_N (n - 1))) ++ rest)
      with (String d ""
            ++ "e" ++ ((if (n - 1 <? 0)%Z then "-" else "+")
                       ++ decimalOfN (Z.abs_N (n - 1))) ++ rest).
    rewrite parseMagnitude_integer;
      [|simpl; now rewrite Hd|reflexivity
       |now apply (integer_part_ok _ d "")].
    rewrite parseFraction_none by reflexivity.
    rewrite (parseExponent_written (n - 1) rest Hnd).
    do 2 f_equal.
    apply makeNumber_digits;
      [assumption
      |cbn [append]; now apply countLeadingZeros_head
      |now cbn [append]
      |cbn [String.length]; lia].
  - assert (Htl : allDigits (String c tl) = true).
    { simpl in Hall. now apply andb_true_iff in Hall. }
    replace (String d ("." ++ String c tl ++ "e"
                       ++ (if (n - 1 <? 0)%Z then "-" else "+")
                       ++ decimalOfN (Z.abs_N (n - 1))) ++ rest)
      with (String d ""
            ++ "." ++ String c tl
            ++ "e" ++ ((if (n - 1 <? 0)%Z then "-" else "+")
                       ++ decimalOfN (Z.abs_N (n - 1))) ++ rest)
      by (cbn [append]; rewrite (append_assoc tl); now cbn [append]).
    rewrite parseMagnitude_integer;
      [|simpl; now rewrite Hd|reflexivity
       |now apply (integer_part_ok _ d "")].
    rewrite parseFraction_written by (assumption || discriminate || reflexivity).
    rewrite (parseExponent_written (n - 1) rest Hnd).
    do 2 f_equal.
    apply makeNumber_digits;
      [assumption
      |cbn [append]; now apply countLeadingZeros_head
      |now cbn [append]
      |cbn [String.length]; lia].
Qed.

Lemma digitsToString_head (ds : string) (n : Z) :
  digitsOk ds = true ->
  exists c t, digitsToString ds n = String c t /\ isDigit c = true.
Proof.
  intros Hok.
  destruct (digitsOk_inv ds Hok) as (Hall & Hstrip & d & tl & Eds & Hd0 & Hd).
  unfold digitsToString.
  destruct ((Z.of_nat (String.length ds) <=? n) && (n <=? 21))%Z.
  { rewrite Eds. simpl. eauto. }
  destruct ((0 <? n) && (n <=? 21))%Z eqn:C7.
  { apply andb_true_iff in C7 as [C7 _]. apply Z.ltb_lt in C7.
    rewrite Eds. destruct (Z.to_nat n) eqn:En; [lia|]. simpl. eauto. }
  destruct ((-6 <? n) && (n <=? 0))%Z.
  { simpl. eauto. }
  rewrite Eds. destruct tl; simpl; eauto.
Qed.

(** A safe number is read back from its text. *)
Lemma parseNumber_numberToString (x : number) (rest : string) :
  numberSafe x = true -> numberEnd rest = true ->
  parseNumber (numberToString x ++ rest) = Some (x, rest).
Proof.
  intros Hx Hend. rewrite parseNumber_sign. destruct x as [| |neg|neg ds n];
    try discriminate.
  - destruct neg; [discriminate|]. cbn [numberToString append Ascii.eqb Bool.eqb].
    change (String "0" rest) with ("0" ++ rest).
    rewrite parseMagnitude_integer;
      [|reflexivity|now apply numberEnd_noDigit|exact zero_integer_part].
    rewrite parseFraction_none, parseExponent_none
      by (assumption || now apply numberEnd_noDot).
    reflexivity.
  - cbn [numberSafe] in Hx. cbn [numberToString]. destruct neg.
    + cbn [append Ascii.eqb Bool.eqb].
      now apply parseMagnitude_digitsToString.
    + cbn [append].
      destruct (digitsToString_head ds n Hx) as (c & t & E & Hc).
      rewrite E. cbn [append].
      replace (Ascii.eqb c "-") with false
        by (symmetry; apply Ascii.eqb_neq; intros ->; discriminate).
      change (String c (t ++ rest)) with (String c t ++ rest). rewrite <- E.
      now apply parseMagnitude_digitsToString.
Qed.

End NumberFacts.


(** ** Values in JSON text *)

Module JsonFacts.
Import Js Json StrFacts NumberFacts.

(** Induction on values, through arrays and objects. *)
Section ValueInduction.
Variable P : value -> Prop.
Hypothesis Hundefined : P VUndefined.
Hypothesis Hnull : P VNull.
Hypothesis Hbool : forall b, P (VBool b).
Hypothesis Hnumber : forall x, P (VNumber x).
Hypothesis Hbigint : forall z, P (VBigInt z).
Hypothesis Hstring : forall s, P (VString s).
Hypothesis Hsymbol : forall d, P (VSymbol d).
Hypothesis Hobject :
  forall props, Forall (fun kv => P (snd kv)) props -> P (VObject props).
Hypothesis Harray : forall elems, Forall P elems -> P (VArray elems).
Hypothesis Hfunction : forall source call, P (VFunction source call).
Hypothesis Hpromise : forall state, P (VPromise state).

Fixpoint value_nested_ind (v : value) : P v :=
  match v with
  | VUndefined => Hundefined
  | VNull => Hnull
  | VBool b => Hbool b
  | VNumber x => Hnumber x
  | VBigInt z => Hbigint z
  | VString s => Hstring s
  | VSymbol d => Hsymbol d
  | VObject props =>
      Hobject props
        ((fix all (l : list (string * value)) : Forall (fun kv => P (snd kv)) l :=
            match l with
            | [] => Forall_nil _
            | kv :: l' =>
                Forall_cons kv
                  (match kv as p return P (snd p) with
                   | (_, x) => value_nested_ind x
                   end)
                  (all l')
            end) props)
  | VArray elems =>
      Harray elems
        ((fix all (l : list value) : Forall P l :=
            match l with
            | [] => Forall_nil _
            | x :: l' => Forall_cons x (value_nested_ind x) (all l')
            end) elems)
  | VFunction source call => Hfunction source call
  | VPromise state => Hpromise state
  end.
End ValueInduction.

(** *** Strings *)

Lemma parse_quoteChar (c : ascii) (t s r : string) :
  parseStringBody t = Some (s, r) ->
  parseStringBody (quoteChar c ++ t) = Some (String c s, r).
Proof.
  intros H.
  destruct c as [[] [] [] [] [] [] [] []];
    match goal with
    | |- context [quoteChar ?c] =>
        let q := eval vm_compute in (quoteChar c) in change (quoteChar c) with q
    end;
    simpl; rewrite H; reflexivity.
Qed.

Lemma parse_quoteBody (s rest : string) :
  parseStringBody (quoteBody s ++ String dquote rest) = Some (s, rest).
Proof.
  induction s as [|c s IH].
  - cbn [quoteBody append parseStringBody]. now rewrite Ascii.eqb_refl.
  - cbn [quoteBody]. rewrite append_assoc. now apply parse_quoteChar.
Qed.

Lemma quoted_append (s rest : string) :
  QuoteJSONString s ++ rest = String dquote (quoteBody s ++ String dquote rest).
Proof.
  unfold QuoteJSONString. cbn [append]. now rewrite append_assoc.
Qed.

(** *** White space *)

Lemma allWhitespace_app (a b : string) :
  allWhitespace (a ++ b) = allWhitespace a && allWhitespace b.
Proof.
  induction a as [|c a IH]; simpl; [reflexivity|].
  now rewrite IH, andb_assoc.
Qed.

Lemma skipWhitespace_app (ws s : string) :
  allWhitespace ws = true -> skipWhitespace (ws ++ s) = skipWhitespace s.
Proof.
  induction ws as [|c ws IH]; [reflexivity|]. simpl.
  intros H. apply andb_true_iff in H as [Hc Hws]. rewrite Hc. now apply IH.
Qed.

Lemma skipWhitespace_head (c : ascii) (s : string) :
  isWhitespace c = false -> skipWhitespace (String c s) = String c s.
Proof. intros H. simpl. now rewrite H. Qed.

Lemma skipWhitespace_idem (s : string) :
  skipWhitespace (skipWhitespace s) = skipWhitespace s.
Proof.
  induction s as [|c s IH]; [reflexivity|]. simpl.
  destruct (isWhitespace c) eqn:E; [assumption|]. simpl. now rewrite E.
Qed.

Lemma parseValue_skip (fuel : nat) (s : string) :
  parseValue fuel (skipWhitespace s) = parseValue fuel s.
Proof.
  destruct fuel as [|fuel]; [reflexivity|].
  cbn [parseValue]. now rewrite skipWhitespace_idem.
Qed.

Lemma parseElements_skip (fuel : nat) (s : string) :
  parseElements fuel (skipWhitespace s) = parseElements fuel s.
Proof.
  destruct fuel as [|fuel]; [reflexivity|].
  cbn [parseElements]. now rewrite parseValue_skip.
Qed.

Lemma parseMembers_skip (fuel : nat) (s : string) :
  parseMembers fuel (skipWhitespace s) = parseMembers fuel s.
Proof.
  destruct fuel as [|fuel]; [reflexivity|].
  cbn [parseMembers]. now rewrite skipWhitespace_idem.
Qed.

(** *** The text of a safe value *)

Lemma numberSafe_finite (x : number) : numberSafe x = true -> isFinite x = true.
Proof. now destruct x. Qed.

Lemma serialize_render (v : value) :
  jsonSafe v = true ->
  forall indent,
    SerializeJSONProperty "  " indent v = Normal (Some (render indent v)).
Proof.
  induction v as [| | | | | | |props IH|elems IH| |] using value_nested_ind;
    intros Hs indent; try discriminate; try reflexivity.
  - cbn [SerializeJSONProperty render]. cbn [jsonSafe] in Hs.
    now rewrite (numberSafe_finite _ Hs).
  - cbn [jsonSafe] in Hs. apply andb_true_iff in Hs as [Hs _].
    cbn [SerializeJSONProperty render].
    match goal with
    | |- match ?m with _ => _ end = _ =>
        assert (E : m = Normal
                      (map (fun kv => let '(key, x) := kv in
                                      QuoteJSONString key ++ ": "
                                      ++ render (indent ++ "  ") x) props))
    end.
    { induction props as [|[key x] props IHp]; [reflexivity|].
      inversion IH as [|? ? Hx Hrest]; subst.
      cbn [forallb] in Hs. apply andb_true_iff in Hs as [Hsx Hsr].
      cbn [snd] in Hx. rewrite (Hx Hsx (indent ++ "  ")).
      rewrite (IHp Hrest Hsr). reflexivity. }
    now rewrite E.
  - cbn [jsonSafe] in Hs. cbn [SerializeJSONProperty render].
    match goal with
    | |- match ?m with _ => _ end = _ =>
        assert (E : m = Normal (map (render (indent ++ "  ")) elems))
    end.
    { induction elems as [|x elems IHe]; [reflexivity|].
      inversion IH as [|? ? Hx Hrest]; subst.
      cbn [forallb] in Hs. apply andb_true_iff in Hs as [Hsx Hsr].
      rewrite (Hx Hsx (indent ++ "  ")).
      rewrite (IHe Hrest Hsr). reflexivity. }
    now rewrite E.
Qed.

(** *** Reading the text back *)

Lemma digit_dispatch (c : ascii) :
  isDigit c = true \/ c = "-"%char ->
  isWhitespace c = false
  /\ Ascii.eqb c "{" = false /\ Ascii.eqb c "[" = false
  /\ Ascii.eqb c dquote = false /\ Ascii.eqb c "n" = false
  /\ Ascii.eqb c "t" = false /\ Ascii.eqb c "f" = false
  /\ Ascii.eqb c "]" = false.
Proof.
  intros [H| ->]; [|repeat split].
  destruct c as [[] [] [] [] [] [] [] []]; try discriminate H; repeat split.
Qed.

Lemma numberToString_head (x : number) :
  numberSafe x = true ->
  exists c t, numberToString x = String c t /\ (isDigit c = true \/ c = "-"%char).
Proof.
  destruct x as [| |neg|neg ds n]; try discriminate; intros H.
  - exists "0"%char, "". split; [reflexivity|now left].
  - cbn [numberSafe] in H. cbn [numberToString].
    destruct neg; cbn [append].
    + eexists _, _. split; [reflexivity|now right].
    + destruct (digitsToString_head ds n H) as (c & t & -> & Hc).
      exists c, t. split; [reflexivity|now left].
Qed.

Lemma parseValue_number (fuel : nat) (x : number) (rest : string) :
  numberSafe x = true -> numberEnd rest = true ->
  parseValue (S fuel) (numberToString x ++ rest) = Some (VNumber x, rest).
Proof.
  intros Hx Hend.
  pose proof (parseNumber_numberToString x rest Hx Hend) as Hp.
  destruct (numberToString_head x Hx) as (c & t & E & Hc).
  rewrite E in *. cbn [append] in *.
  destruct (digit_dispatch c Hc) as (Hw & H1 & H2 & H3 & H4 & H5 & H6 & _).
  cbn [parseValue]. rewrite skipWhitespace_head by assumption.
  now rewrite H1, H2, H3, H4, H5, H6, Hp.
Qed.

(** Where the text of a safe value starts. *)
Lemma render_start (indent : string) (v : value) :
  jsonSafe v = true ->
  exists c t, render indent v = String c t
              /\ isWhitespace c = false /\ Ascii.eqb c "]" = false.
Proof.
  destruct v; try discriminate; intros H; cbn [render].
  - eexists _, _. repeat split.
  - destruct b; eexists _, _; repeat split.
  - cbn [jsonSafe] in H. destruct (numberToString_head x H) as (c & t & E & Hc).
    destruct (digit_dispatch c Hc) as (Hw & _ & _ & _ & _ & _ & _ & Hb).
    now exists c, t.
  - eexists _, _. repeat split.
  - unfold wrap. destruct (map _ props); eexists _, _; repeat split.
  - unfold wrap. destruct (map _ elems); eexists _, _; repeat split.
Qed.

Lemma wrap_cons (opening closing stepback indent p : string) (ps : list string)
      (rest : string) :
  wrap opening closing "  " stepback indent (p :: ps) ++ rest
  = opening ++ String LF indent
      ++ String.concat ("," ++ String LF indent) (p :: ps)
      ++ String LF stepback ++ closing ++ rest.
Proof.
  unfold wrap. cbn [String.eqb Ascii.eqb Bool.eqb].
  now rewrite !append_assoc.
Qed.

Lemma numberEnd_LF (s t : string) : numberEnd (String LF s ++ t) = true.
Proof. reflexivity. Qed.

Lemma numberEnd_comma (s : string) : numberEnd ("," ++ s) = true.
Proof. reflexivity. Qed.

Lemma allWhitespace_LF (indent : string) :
  allWhitespace indent = true -> allWhitespace (String LF indent) = true.
Proof. intros H. simpl. exact H. Qed.

(** The elements of an array, after the opening bracket. *)
Lemma parseElements_rendered
    (stepback indent : string) (elems : list value) (rest : string) :
  allWhitespace stepback = true -> allWhitespace indent = true ->
  elems <> [] ->
  Forall (fun x => jsonSafe x = true /\ Reads indent x) elems ->
  forall fuel,
    needElements elems <= fuel ->
    parseElements fuel
      (String.concat ("," ++ String LF indent) (map (render indent) elems)
       ++ String LF stepback ++ "]" ++ rest)
    = Some (elems, rest).
Proof.
  intros Hsb Hin Hne Hall.
  induction elems as [|x elems IH]; [contradiction|].
  intros fuel Hfuel. inversion Hall as [|? ? [Hsx Hx] Hrest]; subst.
  unfold needElements in Hfuel. cbn [fold_right] in Hfuel.
  fold (needElements elems) in Hfuel.
  destruct fuel as [|fuel]; [lia|]. cbn [parseElements].
  destruct elems as [|y elems].
  - cbn [map String.concat].
    rewrite (Hx fuel _ ltac:(lia) (numberEnd_LF _ _)).
    rewrite (skipWhitespace_app (String LF stepback)) by now apply allWhitespace_LF.
    reflexivity.
  - change (String.concat ("," ++ String LF indent) (map (render indent) (x :: y :: elems)))
      with (render indent x ++ ("," ++ String LF indent)
            ++ String.concat ("," ++ String LF indent)
                 (map (render indent) (y :: elems))).
    rewrite !append_assoc.
    rewrite (Hx fuel _ ltac:(lia) (numberEnd_comma _)).
    change ("," ++ ?t) with (String "," t).
    rewrite skipWhitespace_head by reflexivity. rewrite Ascii.eqb_refl.
    rewrite <- parseElements_skip.
    rewrite (skipWhitespace_app (String LF indent)) by now apply allWhitespace_LF.
    rewrite parseElements_skip.
    rewrite IH; [reflexivity|discriminate|assumption|lia].
Qed.

(** The members of an object, after the opening brace. *)
Lemma parseMembers_rendered
    (stepback indent : string) (props : list (string * value)) (rest : string) :
  allWhitespace stepback = true -> allWhitespace indent = true ->
  props <> [] ->
  Forall (fun kv => jsonSafe (snd kv) = true /\ Reads indent (snd kv)) props ->
  forall fuel,
    needMembers props <= fuel ->
    parseMembers fuel
      (String.concat ("," ++ String LF indent) (map (member indent) props)
       ++ String LF stepback ++ "}" ++ rest)
    = Some (props, rest).
Proof.
  intros Hsb Hin Hne Hall.
  induction props as [|[key x] props IH]; [contradiction|].
  intros fuel Hfuel. inversion Hall as [|? ? [Hsx Hx] Hrest]; subst.
  cbn [snd] in Hsx, Hx.
  unfold needMembers in Hfuel. cbn [fold_right] in Hfuel.
  fold (needMembers props) in Hfuel.
  destruct fuel as [|fuel]; [lia|]. cbn [parseMembers].
  assert (Hkey : forall tail,
             parseValue fuel (" " ++ render indent x ++ tail)
             = parseValue fuel (render indent x ++ tail)).
  { intros tail. rewrite <- parseValue_skip.
    rewrite (skipWhitespace_app " ") by reflexivity.
    now rewrite parseValue_skip. }
  destruct props as [|kv props].
  - cbn [map String.concat member].
    rewrite !append_assoc, quoted_append.
    rewrite skipWhitespace_head by reflexivity. rewrite Ascii.eqb_refl.
    rewrite parse_quoteBody.
    change (": " ++ ?t) with (String ":" (" " ++ t)).
    rewrite skipWhitespace_head by reflexivity. cbn [Ascii.eqb Bool.eqb].
    rewrite Hkey.
    rewrite (Hx fuel _ ltac:(lia) (numberEnd_LF _ _)).
    rewrite (skipWhitespace_app (String LF stepback)) by now apply allWhitespace_LF.
    reflexivity.
  - change (String.concat ("," ++ String LF indent)
              (map (member indent) ((key, x) :: kv :: props)))
      with ((QuoteJSONString key ++ ": " ++ render indent x)
            ++ ("," ++ String LF indent)
            ++ String.concat ("," ++ String LF indent)
                 (map (member indent) (kv :: props))).
    rewrite !append_assoc, quoted_append.
    rewrite skipWhitespace_head by reflexivity. rewrite Ascii.eqb_refl.
    rewrite parse_quoteBody.
    change (": " ++ ?t) with (String ":" (" " ++ t)).
    rewrite skipWhitespace_head by reflexivity. cbn [Ascii.eqb Bool.eqb].
    rewrite Hkey.
    rewrite (Hx fuel _ ltac:(lia) (numberEnd_comma _)).
    change ("," ++ ?t) with (String "," t).
    rewrite skipWhitespace_head by reflexivity. rewrite Ascii.eqb_refl.
    rewrite <- parseMembers_skip.
    rewrite (skipWhitespace_app (String LF indent)) by now apply allWhitespace_LF.
    rewrite parseMembers_skip.
    rewrite IH; [reflexivity|discriminate|assumption|lia].
Qed.

Lemma prefix_append (word rest : string) : String.prefix word (word ++ rest) = true.
Proof. apply prefix_iff. now exists rest. Qed.

Lemma drop_length_append (word rest : string) :
  drop (String.length word) (word ++ rest) = rest.
Proof. induction word as [|c word IH]; [now destruct rest|exact IH]. Qed.

Lemma parseLiteral_written (word : string) (v : value) (rest : string) :
  parseLiteral word v (word ++ rest) = Some (v, rest).
Proof.
  unfold parseLiteral. now rewrite prefix_append, drop_length_append.
Qed.

(** Defining distinct keys one after the other lists them in order. *)
Lemma defineProperty_fresh (acc : list (string * value)) (key : string) (x : value) :
  existsb (String.eqb key) (map fst acc) = false ->
  defineProperty acc (key, x) = (acc ++ [(key, x)])%list.
Proof.
  induction acc as [|[k v] acc IH]; [reflexivity|].
  cbn [map fst existsb defineProperty snd]. intros H.
  apply orb_false_iff in H as [Hk Hacc].
  rewrite String.eqb_sym, Hk. cbn [app]. now rewrite IH.
Qed.

Lemma existsb_app_false (key : string) (a b : list string) :
  existsb (String.eqb key) a = false -> existsb (String.eqb key) b = false ->
  existsb (String.eqb key) (a ++ b) = false.
Proof. intros Ha Hb. now rewrite existsb_app, Ha, Hb. Qed.

Lemma fold_defineProperty (props acc : list (string * value)) :
  distinct (map fst props) = true ->
  (forall key, In key (map fst props) ->
               existsb (String.eqb key) (map fst acc) = false) ->
  fold_left defineProperty props acc = (acc ++ props)%list.
Proof.
  revert acc. induction props as [|[key x] props IH]; intros acc Hd Hfresh.
  - now rewrite List.app_nil_r.
  - cbn [map fst distinct] in Hd. apply andb_true_iff in Hd as [Hk Hd].
    apply negb_true_iff in Hk.
    cbn [fold_left]. rewrite defineProperty_fresh by (apply Hfresh; now left).
    rewrite IH; [now rewrite <- List.app_assoc|assumption|].
    intros key' Hin. rewrite map_app. apply existsb_app_false.
    + apply Hfresh. now right.
    + cbn [map fst existsb]. rewrite orb_false_r.
      destruct (String.eqb_spec key' key) as [->|_]; [|reflexivity].
      assert (existsb (String.eqb key) (map fst props) = true)
        by (apply existsb_exists; exists key; split;
            [assumption|apply String.eqb_refl]).
      congruence.
Qed.

Lemma concat_starts (sep p : string) (ps : list string) (c : ascii) (t : string) :
  p = String c t -> exists t', String.concat sep (p :: ps) = String c t'.
Proof.
  intros ->. destruct ps as [|q ps]; cbn [String.concat append]; eauto.
Qed.

(** The text of a safe value is read back as that value. *)
Theorem render_reads (v : value) :
  jsonSafe v = true ->
  forall indent, allWhitespace indent = true -> Reads indent v.
Proof.
  induction v as [| | | | | | |props IH|elems IH| |] using value_nested_ind;
    intros Hs indent Hin fuel rest Hfuel Hend; try discriminate;
    (destruct fuel as [|fuel]; [cbn [need] in Hfuel; lia|]).
  - exact (parseLiteral_written "null" VNull rest).
  - destruct b.
    + exact (parseLiteral_written "true" (VBool true) rest).
    + exact (parseLiteral_written "false" (VBool false) rest).
  - now apply parseValue_number.
  - cbn [render]. rewrite quoted_append. cbn [parseValue].
    rewrite skipWhitespace_head by reflexivity.
    replace (Ascii.eqb dquote "{") with false by reflexivity.
    replace (Ascii.eqb dquote "[") with false by reflexivity.
    now rewrite Ascii.eqb_refl, parse_quoteBody.
  - (* objects *)
    cbn [jsonSafe] in Hs. apply andb_true_iff in Hs as [Hs Hd].
    cbn [need] in Hfuel. fold (needMembers props) in Hfuel.
    cbn [render]. destruct props as [|kv props]; [reflexivity|].
    change (map (fun kv0 : string * value =>
                   let '(key, x) := kv0 in
                   QuoteJSONString key ++ ": " ++ render (indent ++ "  ") x)
                (kv :: props))
      with (member (indent ++ "  ") kv :: map (member (indent ++ "  ")) props).
    rewrite wrap_cons. cbn [parseValue].
    change ("{" ++ ?t) with (String "{" t).
    rewrite skipWhitespace_head by reflexivity. rewrite Ascii.eqb_refl.
    assert (Hin2 : allWhitespace (indent ++ "  ") = true)
      by now rewrite allWhitespace_app, Hin.
    rewrite (skipWhitespace_app (String LF (indent ++ "  ")))
      by now apply allWhitespace_LF.
    pose proof (parseMembers_rendered indent (indent ++ "  ") (kv :: props) rest
                  Hin Hin2 ltac:(discriminate)) as Hm.
    assert (Hall : Forall (fun kv0 => jsonSafe (snd kv0) = true
                                      /\ Reads (indent ++ "  ") (snd kv0))
                          (kv :: props)).
    { rewrite forallb_forall in Hs. rewrite Forall_forall in IH |- *.
      intros [k x] Hk. cbn [snd]. pose proof (Hs _ Hk) as Hsx. cbn beta iota in Hsx.
      split; [assumption|]. now apply (IH _ Hk). }
    specialize (Hm Hall fuel ltac:(lia)).
    change (map (member (indent ++ "  ")) (kv :: props))
      with (member (indent ++ "  ") kv :: map (member (indent ++ "  ")) props) in Hm.
    destruct (concat_starts ("," ++ String LF (indent ++ "  "))
                (member (indent ++ "  ") kv)
                (map (member (indent ++ "  ")) props) dquote
                (let '(key, x) := kv in
                 quoteBody key ++ String dquote (": " ++ render (indent ++ "  ") x)))
      as [t' E].
    { destruct kv as [key x]. unfold member. now rewrite quoted_append. }
    rewrite E in Hm |- *. cbn [append] in Hm |- *.
    rewrite skipWhitespace_head by reflexivity.
    replace (Ascii.eqb dquote "}") with false by reflexivity.
    rewrite Hm. do 3 f_equal.
    apply (fold_defineProperty (kv :: props) [] Hd). reflexivity.
  - (* arrays *)
    cbn [jsonSafe] in Hs.
    cbn [need] in Hfuel. fold (needElements elems) in Hfuel.
    cbn [render]. destruct elems as [|x elems]; [reflexivity|].
    cbn [map]. rewrite wrap_cons. cbn [parseValue].
    change ("[" ++ ?t) with (String "[" t).
    rewrite skipWhitespace_head by reflexivity.
    replace (Ascii.eqb "[" "{") with false by reflexivity.
    rewrite Ascii.eqb_refl.
    assert (Hin2 : allWhitespace (indent ++ "  ") = true)
      by now rewrite allWhitespace_app, Hin.
    rewrite (skipWhitespace_app (String LF (indent ++ "  ")))
      by now apply allWhitespace_LF.
    pose proof (parseElements_rendered indent (indent ++ "  ") (x :: elems) rest
                  Hin Hin2 ltac:(discriminate)) as He.
    assert (Hall : Forall (fun y => jsonSafe y = true /\ Reads (indent ++ "  ") y)
                          (x :: elems)).
    { rewrite forallb_forall in Hs. rewrite Forall_forall in IH |- *.
      intros y Hy. split; [now apply Hs|].
      apply (IH _ Hy); [now apply Hs|assumption]. }
    specialize (He Hall fuel ltac:(lia)). cbn [map] in He.
    assert (Hsx : jsonSafe x = true)
      by (rewrite forallb_forall in Hs; apply Hs; now left).
    destruct (render_start (indent ++ "  ") x Hsx) as (c & t & Ex & Hw & Hb).
    destruct (concat_starts ("," ++ String LF (indent ++ "  "))
                (render (indent ++ "  ") x)
                (map (render (indent ++ "  ")) elems) c t Ex) as [t' E].
    rewrite E in He |- *. cbn [append] in He |- *.
    rewrite skipWhitespace_head by assumption.
    now rewrite Hb, He.
Qed.

(** *** Enough fuel *)

Lemma totalLength_concat (sep : string) (strs : list string) :
  1 <= String.length sep ->
  totalLength strs <= S (String.length (String.concat sep strs)).
Proof.
  intros Hsep. induction strs as [|s strs IH]; [cbn; lia|].
  destruct strs as [|t strs]; [cbn; lia|].
  change (String.concat sep (s :: t :: strs))
    with (s ++ sep ++ String.concat sep (t :: strs)).
  rewrite !length_append. unfold totalLength in *. cbn [fold_right] in *. lia.
Qed.

Lemma length_wrap (opening closing stepback indent p : string) (ps : list string) :
  String.length opening + String.length closing + 2
  + String.length (String.concat ("," ++ String LF indent) (p :: ps))
  <= String.length (wrap opening closing "  " stepback indent (p :: ps)).
Proof.
  rewrite <- (append_nil_r (wrap _ _ _ _ _ _)), wrap_cons.
  rewrite !length_append. cbn [String.length]. lia.
Qed.

Lemma need_le_length (v : value) :
  jsonSafe v = true ->
  forall indent, need v <= String.length (render indent v).
Proof.
  induction v as [| | | | | | |props IH|elems IH| |] using value_nested_ind;
    intros Hs indent; try discriminate.
  - cbn; lia.
  - destruct b; cbn; lia.
  - destruct (render_start indent (VNumber x) Hs) as (c & t & -> & _). cbn; lia.
  - cbn; lia.
  - cbn [jsonSafe] in Hs. apply andb_true_iff in Hs as [Hs _].
    cbn [need render]. fold (needMembers props).
    destruct props as [|kv props]; [cbn; lia|].
    change (map _ (kv :: props))
      with (member (indent ++ "  ") kv :: map (member (indent ++ "  ")) props).
    pose proof (length_wrap "{" "}" indent (indent ++ "  ")
                  (member (indent ++ "  ") kv)
                  (map (member (indent ++ "  ")) props)) as Hw.
    pose proof (totalLength_concat ("," ++ String LF (indent ++ "  "))
                  (map (member (indent ++ "  ")) (kv :: props))
                  ltac:(cbn; lia)) as Ht.
    assert (Hn : needMembers (kv :: props)
                 <= totalLength (map (member (indent ++ "  ")) (kv :: props))).
    { clear Hw Ht. induction (kv :: props) as [|[key x] l IHl]; [cbn; lia|].
      inversion IH as [|? ? Hx Hrest]; subst. cbn [snd] in Hx.
      cbn [forallb] in Hs. apply andb_true_iff in Hs as [Hsx Hsl].
      specialize (IHl Hrest Hsl). specialize (Hx Hsx (indent ++ "  ")).
      unfold needMembers, totalLength in *. cbn [map fold_right member].
      rewrite !length_append. lia. }
    cbn [map] in Ht, Hn. cbn [String.length] in Hw. lia.
  - cbn [jsonSafe] in Hs.
    cbn [need render]. fold (needElements elems).
    destruct elems as [|x elems]; [cbn; lia|].
    cbn [map].
    pose proof (length_wrap "[" "]" indent (indent ++ "  ")
                  (render (indent ++ "  ") x)
                  (map (render (indent ++ "  ")) elems)) as Hw.
    pose proof (totalLength_concat ("," ++ String LF (indent ++ "  "))
                  (map (render (indent ++ "  ")) (x :: elems))
                  ltac:(cbn; lia)) as Ht.
    assert (Hn : needElements (x :: elems)
                 <= totalLength (map (render (indent ++ "  ")) (x :: elems))).
    { clear Hw Ht. induction (x :: elems) as [|y l IHl]; [cbn; lia|].
      inversion IH as [|? ? Hy Hrest]; subst.
      cbn [forallb] in Hs. apply andb_true_iff in Hs as [Hsy Hsl].
      specialize (IHl Hrest Hsl). specialize (Hy Hsy (indent ++ "  ")).
      unfold needElements, totalLength in *. cbn [map fold_right]. lia. }
    cbn [map] in Ht, Hn. cbn [String.length] in Hw. lia.
Qed.

(** [JSON.parse(JSON.stringify(v, null, 2))] is [v] for a safe [v]. *)
Theorem parse_stringify (v : value) :
  jsonSafe v = true ->
  stringify v 2 = Normal (Some (render "" v))
  /\ parse (render "" v) = Some v.
Proof.
  intros Hs. split.
  - exact (serialize_render v Hs "").
  - unfold parse.
    pose proof (render_reads v Hs "" eq_refl
                  (S (String.length (render "" v))) ""
                  ltac:(pose proof (need_le_length v Hs ""); lia) eq_refl) as H.
    rewrite append_nil_r in H. now rewrite H.
Qed.

(** *** Deep equality *)

Lemma sameNumber_refl (x : number) : sameNumber x x = true.
Proof.
  destruct x as [|neg|neg|neg ds n]; cbn; try reflexivity;
    try (now destruct neg).
  now rewrite Bool.eqb_reflx, String.eqb_refl, Z.eqb_refl.
Qed.

Lemma lookup_distinct (props : list (string * value)) (key : string) (x : value) :
  distinct (map fst props) = true -> In (key, x) props -> lookup key props = Some x.
Proof.
  induction props as [|[k v] props IH]; [contradiction|].
  cbn [map fst distinct lookup]. intros Hd Hin.
  apply andb_true_iff in Hd as [Hk Hd]. apply negb_true_iff in Hk.
  destruct Hin as [E|Hin].
  - inversion E; subst. now rewrite String.eqb_refl.
  - destruct (String.eqb_spec k key) as [->|_]; [|now apply IH].
    assert (existsb (String.eqb key) (map fst props) = true).
    { apply existsb_exists. exists key. split; [|apply String.eqb_refl].
      change key with (fst (key, x)). now apply in_map. }
    congruence.
Qed.

Lemma deepEqual_object (ps qs : list (string * value)) :
  deepEqual (VObject ps) (VObject qs)
  = Nat.eqb (List.length ps) (List.length qs) && everyMember qs ps.
Proof. reflexivity. Qed.

Lemma everyMember_refl (qs part : list (string * value)) :
  distinct (map fst qs) = true ->
  (forall kv, In kv part -> In kv qs) ->
  (forall kv, In kv part -> deepEqual (snd kv) (snd kv) = true) ->
  everyMember qs part = true.
Proof.
  intros Hd. induction part as [|[key x] part IHp]; intros Hsub Heq; [reflexivity|].
  cbn [everyMember]. fold (everyMember qs).
  rewrite (lookup_distinct qs key x Hd) by (apply Hsub; now left).
  rewrite IHp.
  - rewrite andb_true_r. exact (Heq (key, x) (or_introl eq_refl)).
  - intros kv Hkv. apply Hsub. now right.
  - intros kv Hkv. apply Heq. now right.
Qed.

Lemma deepEqual_refl (v : value) : jsonSafe v = true -> deepEqual v v = true.
Proof.
  induction v as [| | | | | | |props IH|elems IH| |] using value_nested_ind;
    intros Hs; try discriminate.
  - reflexivity.
  - apply Bool.eqb_reflx.
  - apply sameNumber_refl.
  - apply String.eqb_refl.
  - cbn [jsonSafe] in Hs. apply andb_true_iff in Hs as [Hs Hd].
    rewrite deepEqual_object, Nat.eqb_refl. cbn [andb].
    apply everyMember_refl; [assumption|auto|].
    intros [key x] Hkv. rewrite Forall_forall in IH. rewrite forallb_forall in Hs.
    apply (IH _ Hkv). exact (Hs _ Hkv).
  - cbn [jsonSafe] in Hs. cbn [deepEqual].
    induction elems as [|x elems IHe]; [reflexivity|].
    inversion IH as [|? ? Hx Hrest]; subst.
    cbn [forallb] in Hs. apply andb_true_iff in Hs as [Hsx Hsl].
    now rewrite (Hx Hsx), (IHe Hrest Hsl).
Qed.

End JsonFacts.

(** ** The claims *)

Import Js Cli RunFacts GenerateFacts.

(** The end-to-end example of the specification: the object exported
    directly, no [outDir], no [.actor] directory. *)
Example generate_demo :
  generate (Example.world Example.demo false) (Example.args None)
  = ([Log "Importing file from /work/actorspec.config.js";
      Log "Actorspec found! Resolving...";
      Log "Writing resolved config to file /work/actorspec.json";
      Mkdir "/work";
      WriteFile "/work/actorspec.json"
        (String.concat (String Json.LF "")
           ["{";
            "  " ++ Json.QuoteJSONString "actorspecVersion" ++ ": 1,";
            "  " ++ Json.QuoteJSONString "actor" ++ ": {";
            "    " ++ Json.QuoteJSONString "title" ++ ": "
                   ++ Json.QuoteJSONString "Demo";
            "  }";
            "}"]);
      Log "Done!"],
     Returned tt).
Proof. reflexivity. Qed.

(** C1 (fails on the code).  When the default export is a function,
    [generate] never returns normally and issues no file-system call,
    whatever the function returns: the check after the call tests the
    type of the export, which is [function].  So a factory export is
    never written, while the specification wants it written like the
    object it returns. *)
Theorem factory_export_never_written
    (w : World) (args : Args) (m : value) (source : string) (body : completion value) :
  require w (resolvePath w (config args)) = Normal m ->
  Get m "default" = Normal (VFunction source body) ->
  snd (generate w args) <> Returned tt
  /\ fsCalls (generate w args) = []
  /\ filesWritten (generate w args) = [].
Proof.
  intros Hr Hg.
  rewrite snd_generate_silenced, fsCalls_generate_silenced,
    filesWritten_generate_silenced.
  destruct (silent_function_cases w (silenced args) m source body eq_refl Hr Hg)
    as [E|[[e E]|E]]; rewrite E; repeat split; discriminate.
Qed.

Lemma factory_export_never_written_witness :
  snd (generate (Example.world Example.syncFactory false) (Example.args None))
    <> Returned tt
  /\ fsCalls (generate (Example.world Example.syncFactory false) (Example.args None)) = []
  /\ filesWritten (generate (Example.world Example.syncFactory false) (Example.args None)) = [].
Proof.
  apply (factory_export_never_written
           (Example.world Example.syncFactory false) (Example.args None)
           (VObject [("__esModule", VBool true); ("default", Example.syncFactory)])
           "() => ({ actorspecVersion: 1, actor: { title: 'Demo' } })"
           (Normal Example.demo)); reflexivity.
Defined.

(** C2 (fails on the code).  When the default export is a function
    whose call and [await] complete with a value [v], [generate]
    raises the unresolved-config error whatever [v] is, a truthy
    object included: the test is on the export, not on [v]. *)
Theorem unresolved_check_tests_export
    (w : World) (args : Args) (m : value) (source : string) (r v : value) :
  require w (resolvePath w (config args)) = Normal m ->
  Get m "default" = Normal (VFunction source (Normal r)) ->
  Await r = Some (Normal v) ->
  snd (generate w args) =
    Raised UnresolvedConfigError
      (Error ("Failed to import actorspec from path " ++ absPath w (config args)
              ++ ", the import did not resolve to object, got "
              ++ source ++ " instead")).
Proof.
  intros Hr Hg Ha. rewrite snd_generate_silenced.
  rewrite (silent_function w (silenced args) m source (Normal r) eq_refl Hr Hg).
  rewrite bind_try_normal. unfold await. rewrite Ha.
  now rewrite bind_try_normal.
Qed.

Lemma unresolved_check_tests_export_witness :
  truthy Example.demo = true /\ typeof Example.demo = "object"
  /\ snd (generate (Example.world Example.asyncFactory false) (Example.args None)) =
       Raised UnresolvedConfigError
         (Error ("Failed to import actorspec from path /work/actorspec.config.js"
                 ++ ", the import did not resolve to object, got "
                 ++ "async () => ({ actorspecVersion: 1, actor: { title: 'Demo' } })"
                 ++ " instead")).
Proof.
  split; [reflexivity|]. split; [reflexivity|].
  apply (unresolved_check_tests_export
           (Example.world Example.asyncFactory false) (Example.args None)
           (VObject [("__esModule", VBool true); ("default", Example.asyncFactory)])
           "async () => ({ actorspecVersion: 1, actor: { title: 'Demo' } })"
           (VPromise (Fulfilled Example.demo)) Example.demo); reflexivity.
Defined.

(** The other half of the second check holds on the code: an export
    that is itself a truthy object passes it. *)
Lemma object_export_passes_second_check
    (w : World) (args : Args) (m c : value) :
  require w (resolvePath w (config args)) = Normal m ->
  Get m "default" = Normal c ->
  truthy c = true -> typeof c = "object" ->
  raisedKind (generate w args) <> Some UnresolvedConfigError.
Proof.
  intros Hr Hg Ht Ho. rewrite raisedKind_generate_silenced.
  rewrite (silent_object w (silenced args) m c eq_refl Hr Hg Ht Ho).
  unfold raisedKind.
  destruct (Get c "actorspecVersion") as [x|e]; [|discriminate].
  rewrite bind_try_normal. destruct (truthy x); [|discriminate].
  cbn [negb]. rewrite bind_ret_l.
  destruct (Json.stringify c 2) as [j|e]; [|discriminate].
  rewrite bind_try_normal. unfold fspMkdir, fspWriteFile, bind.
  destruct (mkdir w _); [discriminate|].
  destruct j as [text|]; [|discriminate].
  destruct (writeFile w _ _); discriminate.
Qed.

(** C5 (fails on the code).  When the default export is a function,
    [generate] never raises the missing-version error: the run stops
    at the second check before [actorspecVersion] is looked at.  So the
    object a factory resolves to is not checked for its version. *)
Theorem factory_never_missing_version
    (w : World) (args : Args) (m : value) (source : string) (body : completion value) :
  require w (resolvePath w (config args)) = Normal m ->
  Get m "default" = Normal (VFunction source body) ->
  raisedKind (generate w args) <> Some MissingVersionError.
Proof.
  intros Hr Hg. rewrite raisedKind_generate_silenced.
  destruct (silent_function_cases w (silenced args) m source body eq_refl Hr Hg)
    as [E|[[e E]|E]]; rewrite E; discriminate.
Qed.

Lemma factory_never_missing_version_witness :
  Get (VObject []) "actorspecVersion" = Normal VUndefined
  /\ raisedKind (generate (Example.world Example.emptyFactory false) (Example.args None))
     <> Some MissingVersionError.
Proof.
  split; [reflexivity|].
  apply (factory_never_missing_version
           (Example.world Example.emptyFactory false) (Example.args None)
           (VObject [("__esModule", VBool true); ("default", Example.emptyFactory)])
           "() => ({})" (Normal (VObject []))); reflexivity.
Defined.

(** What the run does at that input: the unresolved-config error. *)
Example empty_factory_run :
  generate (Example.world Example.emptyFactory false) (Example.args None)
  = ([Log "Importing file from /work/actorspec.config.js";
      Log "Actorspec found! Resolving..."],
     Raised UnresolvedConfigError
       (Error ("Failed to import actorspec from path /work/actorspec.config.js"
               ++ ", the import did not resolve to object, got () => ({}) instead"))).
Proof. reflexivity. Qed.

(** A factory whose promise never settles: the run hangs in [await]. *)
Example pending_factory_hangs :
  generate (Example.world (VFunction "() => new Promise(() => {})"
                                     (Normal (VPromise Pending))) false)
           (Example.args None)
  = ([Log "Importing file from /work/actorspec.config.js";
      Log "Actorspec found! Resolving..."],
     Hangs).
Proof. reflexivity. Qed.

(** For an export that is itself an object the version check is as
    the specification says: a falsy [actorspecVersion] raises the
    missing-version error before any file-system call, a truthy one
    does not raise it. *)
Lemma object_export_version_check
    (w : World) (args : Args) (m c version : value) :
  require w (resolvePath w (config args)) = Normal m ->
  Get m "default" = Normal c ->
  truthy c = true -> typeof c = "object" ->
  Get c "actorspecVersion" = Normal version ->
  (truthy version = false ->
     snd (generate w args) =
       Raised MissingVersionError
         (Error ("Invalid actorspec object imported from path "
                 ++ absPath w (config args) ++ ", config.actorspecVersion is missing"))
     /\ fsCalls (generate w args) = []
     /\ filesWritten (generate w args) = [])
  /\ (truthy version = true ->
        raisedKind (generate w args) <> Some MissingVersionError).
Proof.
  intros Hr Hg Ht Ho Hv.
  rewrite snd_generate_silenced, fsCalls_generate_silenced,
    filesWritten_generate_silenced, raisedKind_generate_silenced.
  rewrite (silent_object w (silenced args) m c eq_refl Hr Hg Ht Ho).
  rewrite Hv, bind_try_normal. split; intros ->; cbn [negb].
  - now rewrite bind_raise.
  - rewrite bind_ret_l. unfold raisedKind.
    destruct (Json.stringify c 2) as [j|e]; [|discriminate].
    rewrite bind_try_normal. unfold fspMkdir, fspWriteFile, bind.
    destruct (mkdir w _); [discriminate|].
    destruct j as [text|]; [|discriminate].
    destruct (writeFile w _ _); discriminate.
Qed.

(** A module without a [default] property exports [undefined]. *)
Lemma Get_missing (props : list (string * value)) (key : string) :
  lookup key props = None -> Get (VObject props) key = Normal VUndefined.
Proof. intros H. simpl. now rewrite H. Qed.

(** A module without a default export is refused. *)
Example missing_default_rejected :
  generate (mkWorld "/work" Example.toolDir
                    (fun _ => Normal (VObject [("__esModule", VBool true)]))
                    (fun _ => false) (fun _ => None) (fun _ _ => None))
           (mkArgs "actorspec.config.js" None (Some true))
  = ([], Raised InvalidExportError
           (Error ("Failed to import actorspec from path /work/actorspec.config.js"
                   ++ ", got undefined instead"))).
Proof. reflexivity. Qed.

(** C4, counterexample.  An array has type [object] and is truthy: the
    export [[1]] passes the first check; the run ends in the
    missing-version error, not in the invalid-export error. *)
Lemma array_export_not_invalid :
  typeof (VArray [VNumber Example.one]) = "object"
  /\ raisedKind (generate (Example.world (VArray [VNumber Example.one]) false)
                          (Example.args None))
     = Some MissingVersionError
  /\ raisedKind (generate (Example.world (VArray [VNumber Example.one]) false)
                          (Example.args None))
     <> Some InvalidExportError.
Proof. repeat split; (reflexivity || discriminate). Qed.

(** C4, amended.  When the default export is missing ([undefined]),
    [null], a boolean, a number, a bigint or a string, [generate]
    raises the invalid-export error, and no file-system call is issued
    before it. *)
Theorem primitive_export_rejected
    (w : World) (args : Args) (m c : value) :
  require w (resolvePath w (config args)) = Normal m ->
  Get m "default" = Normal c ->
  plainPrimitive c = true ->
  raisedKind (generate w args) = Some InvalidExportError
  /\ fsCalls (generate w args) = []
  /\ filesWritten (generate w args) = [].
Proof.
  intros Hr Hg Hp.
  rewrite raisedKind_generate_silenced, fsCalls_generate_silenced,
    filesWritten_generate_silenced.
  assert (Hc : negb (truthy c)
               || negb (includes ["function"; "object"] (typeof c)) = true).
  { destruct c; try discriminate; try reflexivity;
      cbn [typeof includes existsb String.eqb Ascii.eqb Bool.eqb orb negb];
      apply orb_true_r. }
  rewrite (silent_invalid w (silenced args) m c eq_refl Hr Hg Hc).
  assert (exists got, ToString c = Normal got) as [got ->]
    by (destruct c; try discriminate; simpl; eauto).
  rewrite bind_try_normal. repeat split.
Qed.

Lemma primitive_export_rejected_witness :
  raisedKind (generate (Example.world (VString "actorspec") false) (Example.args None))
  = Some InvalidExportError
  /\ fsCalls (generate (Example.world (VString "actorspec") false) (Example.args None)) = []
  /\ filesWritten (generate (Example.world (VString "actorspec") false) (Example.args None))
     = [].
Proof.
  apply (primitive_export_rejected
           (Example.world (VString "actorspec") false) (Example.args None)
           (VObject [("__esModule", VBool true); ("default", VString "actorspec")])
           (VString "actorspec")); reflexivity.
Defined.

(** C10.  Two runs that differ only in [silent] end the same way,
    issue the same file-system calls and write the same files with the
    same content; a silent run prints nothing. *)
Theorem silent_only_affects_printing
    (w : World) (config : string) (outDir : option string) (s1 s2 : option bool) :
  let r1 := generate w (mkArgs config outDir s1) in
  let r2 := generate w (mkArgs config outDir s2) in
  snd r1 = snd r2
  /\ fsCalls r1 = fsCalls r2
  /\ filesWritten r1 = filesWritten r2
  /\ printed (generate w (mkArgs config outDir (Some true))) = [].
Proof.
  cbv zeta.
  rewrite (snd_generate_silenced w (mkArgs config outDir s1)),
    (snd_generate_silenced w (mkArgs config outDir s2)),
    (fsCalls_generate_silenced w (mkArgs config outDir s1)),
    (fsCalls_generate_silenced w (mkArgs config outDir s2)),
    (filesWritten_generate_silenced w (mkArgs config outDir s1)),
    (filesWritten_generate_silenced w (mkArgs config outDir s2)).
  repeat split.
  change (mkArgs config outDir (Some true))
    with (silenced (mkArgs config outDir None)).
  rewrite <- generate_quiet. unfold printed, quiet. cbn [fst].
  induction (fst (generate w (mkArgs config outDir None))) as [|e t IH];
    [reflexivity|].
  destruct e; simpl; assumption.
Qed.

(** C3, counterexample.  On a read-only file system the run fails in
    [fsp.mkdir]; the error is the one of the file system, and its
    message names the output directory, not the config file. *)
Lemma filesystem_error_lacks_config_path :
  absPath (Example.readOnlyWorld Example.demo) "actorspec.config.js"
  = "/work/actorspec.config.js"
  /\ snd (generate (Example.readOnlyWorld Example.demo) (Example.args (Some "out")))
     = Raised FilesystemError
         (mkError "Error" "EACCES: permission denied, mkdir '/work/out'")
  /\ ~ Str.Contains
         (absPath (Example.readOnlyWorld Example.demo)
                  (config (Example.args (Some "out"))))
         "EACCES: permission denied, mkdir '/work/out'".
Proof.
  split; [reflexivity|]. split; [reflexivity|].
  apply StrFacts.hasSubstring_false. reflexivity.
Qed.

(** C3, amended.  Every error that [generate] raises itself, after
    one of its three checks (invalid export, unresolved config, missing
    version), has a message that contains the absolute path of the
    config file. *)
Theorem own_errors_name_config_path
    (w : World) (args : Args) (k : kind) (e : error) :
  snd (generate w args) = Raised k e ->
  k = InvalidExportError \/ k = UnresolvedConfigError \/ k = MissingVersionError ->
  Str.Contains (absPath w (config args)) (message e).
Proof.
  rewrite snd_generate_silenced. intros H Hk.
  change (absPath w (config args)) with (absPath w (config (silenced args))).
  destruct (require w (resolvePath w (config (silenced args)))) as [m|e0] eqn:Hr.
  2:{ rewrite (silent_import_error w (silenced args) e0 eq_refl Hr) in H.
      inversion H; subst. destruct Hk as [?|[?|?]]; discriminate. }
  destruct (Get m "default") as [c|e0] eqn:Hg.
  2:{ rewrite (silent_get_error w (silenced args) m e0 eq_refl Hr Hg) in H.
      inversion H; subst. destruct Hk as [?|[?|?]]; discriminate. }
  destruct (negb (truthy c) || negb (includes ["function"; "object"] (typeof c)))
    eqn:Hc.
  { rewrite (silent_invalid w (silenced args) m c eq_refl Hr Hg Hc) in H.
    destruct (ToString c) as [got|e0].
    - rewrite bind_try_normal in H. inversion H; subst. cbn [message Error].
      now exists "Failed to import actorspec from path ", (", got " ++ got ++ " instead").
    - inversion H; subst. destruct Hk as [?|[?|?]]; discriminate. }
  apply first_check_passed in Hc as [Ht [[source [body ->]]|Ho]].
  { destruct (silent_function_cases w (silenced args) m source body eq_refl Hr Hg)
      as [E|[[e0 E]|E]]; rewrite E in H.
    - discriminate.
    - inversion H; subst. destruct Hk as [?|[?|?]]; discriminate.
    - inversion H; subst. cbn [message Error].
      now exists "Failed to import actorspec from path ",
        (", the import did not resolve to object, got " ++ source ++ " instead"). }
  rewrite (silent_object w (silenced args) m c eq_refl Hr Hg Ht Ho) in H.
  destruct (Get c "actorspecVersion") as [x|e0].
  2:{ inversion H; subst. destruct Hk as [?|[?|?]]; discriminate. }
  rewrite bind_try_normal in H. destruct (truthy x); cbn [negb] in H.
  2:{ rewrite bind_raise in H. inversion H; subst. cbn [message Error].
      now exists "Invalid actorspec object imported from path ",
        ", config.actorspecVersion is missing". }
  rewrite bind_ret_l in H.
  destruct (Json.stringify c 2) as [j|e0].
  2:{ inversion H; subst. destruct Hk as [?|[?|?]]; discriminate. }
  rewrite bind_try_normal in H.
  destruct (write_stage_cases w
              (absPath w (outDirUsed w (outDir (silenced args))))
              (Path.resolve (cwd w)
                 [absPath w (outDirUsed w (outDir (silenced args))); "actorspec.json"])
              j) as [E|[k' [e' [E Hk']]]];
    rewrite E in H; [discriminate|].
  inversion H; subst.
  destruct Hk' as [->| ->]; destruct Hk as [?|[?|?]]; discriminate.
Qed.

Lemma own_errors_name_config_path_witness :
  Str.Contains
    (absPath (Example.world (VObject []) false) (config (Example.args None)))
    (message (Error ("Invalid actorspec object imported from path "
                     ++ "/work/actorspec.config.js"
                     ++ ", config.actorspecVersion is missing"))).
Proof.
  apply (own_errors_name_config_path
           (Example.world (VObject []) false) (Example.args None) MissingVersionError).
  - reflexivity.
  - right; right; reflexivity.
Defined.

(** The file-system calls of a run: none, the [mkdir] alone, or the
    [mkdir] and then the one [writeFile]. *)
Lemma generate_fs_calls (w : World) (args : Args) :
  let dir := absPath w (outDirUsed w (outDir args)) in
  let file := Path.resolve (cwd w) [dir; "actorspec.json"] in
  fsCalls (generate w args) = []
  \/ fsCalls (generate w args) = [Mkdir dir]
  \/ exists data, fsCalls (generate w args) = [Mkdir dir; WriteFile file data].
Proof.
  cbv zeta. rewrite fsCalls_generate_silenced.
  change (outDir args) with (outDir (silenced args)).
  destruct (require w (resolvePath w (config (silenced args)))) as [m|e0] eqn:Hr.
  2:{ rewrite (silent_import_error w (silenced args) e0 eq_refl Hr). now left. }
  destruct (Get m "default") as [c|e0] eqn:Hg.
  2:{ rewrite (silent_get_error w (silenced args) m e0 eq_refl Hr Hg). now left. }
  destruct (negb (truthy c) || negb (includes ["function"; "object"] (typeof c)))
    eqn:Hc.
  { rewrite (silent_invalid w (silenced args) m c eq_refl Hr Hg Hc).
    left. now destruct (ToString c). }
  apply first_check_passed in Hc as [Ht [[source [body ->]]|Ho]].
  { left.
    destruct (silent_function_cases w (silenced args) m source body eq_refl Hr Hg)
      as [E|[[e0 E]|E]]; now rewrite E. }
  rewrite (silent_object w (silenced args) m c eq_refl Hr Hg Ht Ho).
  destruct (Get c "actorspecVersion") as [x|e0]; [|now left].
  rewrite bind_try_normal. destruct (truthy x); cbn [negb]; [|now left].
  rewrite bind_ret_l.
  destruct (Json.stringify c 2) as [j|e0]; [|now left].
  rewrite bind_try_normal. unfold fspMkdir, fspWriteFile, bind.
  destruct (mkdir w _); [right; now left|].
  destruct j as [text|]; [|right; now left].
  right; right. exists text. now destruct (writeFile w _ _).
Qed.

Lemma filesWritten_fsCalls (r : Run unit) :
  filesWritten r = filesWritten (fsCalls r, snd r).
Proof. exact (eq_sym (filesWritten_quiet r)). Qed.

(** C6, counterexample.  The caller supplies the empty string as
    [outDir] and [/work/.actor] exists: by the rule the file would go
    to [/work], the directory the empty path resolves to; the run
    writes it in [/work/.actor]. *)
Lemma empty_outDir_does_not_take_precedence :
  specOutDir (Example.world Example.demo true) (Some "") = "/work"
  /\ map fst (filesWritten (generate (Example.world Example.demo true)
                                     (Example.args (Some ""))))
     = ["/work/.actor/actorspec.json"]
  /\ map fst (filesWritten (generate (Example.world Example.demo true)
                                     (Example.args (Some ""))))
     <> [Path.inDirectory
           (specOutDir (Example.world Example.demo true) (Some ""))
           "actorspec.json"].
Proof. repeat split; (reflexivity || discriminate). Qed.

(** C6, amended.  In a process with an absolute working directory:
    a non-empty [outDir] is the output directory, whether or not
    [.actor] exists; with no [outDir], or an empty one, the output
    directory is [.actor] under the working directory if that exists
    and the working directory otherwise; the directory created is the
    output directory and every file written is [actorspec.json] in
    it. *)
Theorem output_directory_rule (w : World) (args : Args) :
  Path.isAbsolute (cwd w) = true ->
  let dir := absPath w (outDirUsed w (outDir args)) in
  (forall d, outDir args = Some d -> d <> "" -> dir = absPath w d)
  /\ (outDir args = None \/ outDir args = Some "" ->
      existsSync w (Path.inDirectory (absPath w ".") ".actor") = true ->
      dir = Path.inDirectory (absPath w ".") ".actor")
  /\ (outDir args = None \/ outDir args = Some "" ->
      existsSync w (Path.inDirectory (absPath w ".") ".actor") = false ->
      dir = absPath w ".")
  /\ (forall p, In (Mkdir p) (fst (generate w args)) -> p = dir)
  /\ (forall p data, In (p, data) (filesWritten (generate w args)) ->
      p = Path.inDirectory dir "actorspec.json").
Proof.
  intros Hc dir.
  assert (Hactor : absPath w "./.actor"
                   = Path.inDirectory (absPath w ".") ".actor")
    by (apply (PathFacts.resolve_dot_name (cwd w) ".actor" Hc); reflexivity).
  assert (Hfile : Path.resolve (cwd w) [dir; "actorspec.json"]
                  = Path.inDirectory dir "actorspec.json")
    by (apply (PathFacts.resolve_in_directory (cwd w)); [assumption|reflexivity]).
  split; [|split; [|split; [|split]]].
  - intros d Hd Hne. subst dir. rewrite Hd. unfold outDirUsed.
    apply String.eqb_neq in Hne. cbn [truthy]. now rewrite Hne.
  - intros Hd He. subst dir. rewrite <- Hactor in *.
    destruct Hd as [-> | ->]; unfold outDirUsed; cbn [truthy String.eqb negb];
      now rewrite He.
  - intros Hd He. subst dir. rewrite <- Hactor in He.
    destruct Hd as [-> | ->]; unfold outDirUsed; cbn [truthy String.eqb negb];
      now rewrite He.
  - intros p Hin.
    assert (Hin' : In (Mkdir p) (fsCalls (generate w args)))
      by (apply filter_In; split; [assumption|reflexivity]).
    destruct (generate_fs_calls w args) as [E|[E|[data E]]];
      rewrite E in Hin'; simpl in Hin'.
    + contradiction.
    + destruct Hin' as [H|[]]. now inversion H.
    + destruct Hin' as [H|[H|[]]]; [now inversion H|discriminate].
  - intros p data Hin. rewrite filesWritten_fsCalls in Hin. rewrite <- Hfile.
    destruct (generate_fs_calls w args) as [E|[E|[data' E]]];
      rewrite E in Hin; simpl in Hin.
    + contradiction.
    + contradiction.
    + destruct Hin as [H|[]]. now inversion H.
Qed.

Lemma output_directory_rule_witness :
  let w := Example.world Example.demo true in
  let args := Example.args (Some "out") in
  absPath w (outDirUsed w (outDir args)) = "/work/out"
  /\ existsSync w "/work/.actor" = true
  /\ map fst (filesWritten (generate w args)) = ["/work/out/actorspec.json"]
  /\ forall p data, In (p, data) (filesWritten (generate w args)) ->
       p = Path.inDirectory "/work/out" "actorspec.json".
Proof.
  cbv zeta. split; [reflexivity|]. split; [reflexivity|]. split; [reflexivity|].
  exact (proj2 (proj2 (proj2 (proj2
           (output_directory_rule (Example.world Example.demo true)
              (Example.args (Some "out")) eq_refl))))).
Defined.

(** A run that returns has made both file-system calls. *)
Lemma generate_returned_calls (w : World) (args : Args) :
  let dir := absPath w (outDirUsed w (outDir args)) in
  let file := Path.resolve (cwd w) [dir; "actorspec.json"] in
  snd (generate w args) = Returned tt ->
  exists data, fsCalls (generate w args) = [Mkdir dir; WriteFile file data].
Proof.
  cbv zeta. rewrite snd_generate_silenced, fsCalls_generate_silenced.
  change (outDir args) with (outDir (silenced args)).
  destruct (require w (resolvePath w (config (silenced args)))) as [m|e0] eqn:Hr.
  2:{ now rewrite (silent_import_error w (silenced args) e0 eq_refl Hr). }
  destruct (Get m "default") as [c|e0] eqn:Hg.
  2:{ now rewrite (silent_get_error w (silenced args) m e0 eq_refl Hr Hg). }
  destruct (negb (truthy c) || negb (includes ["function"; "object"] (typeof c)))
    eqn:Hc.
  { rewrite (silent_invalid w (silenced args) m c eq_refl Hr Hg Hc).
    now destruct (ToString c). }
  apply first_check_passed in Hc as [Ht [[source [body ->]]|Ho]].
  { destruct (silent_function_cases w (silenced args) m source body eq_refl Hr Hg)
      as [E|[[e0 E]|E]]; now rewrite E. }
  rewrite (silent_object w (silenced args) m c eq_refl Hr Hg Ht Ho).
  destruct (Get c "actorspecVersion") as [x|e0]; [|discriminate].
  rewrite bind_try_normal. destruct (truthy x); cbn [negb]; [|discriminate].
  rewrite bind_ret_l.
  destruct (Json.stringify c 2) as [j|e0]; [|discriminate].
  rewrite bind_try_normal. unfold fspMkdir, fspWriteFile, bind.
  destruct (mkdir w _); [discriminate|].
  destruct j as [text|]; [|discriminate].
  exists text. now destruct (writeFile w _ _).
Qed.

(** C9.  An empty [outDir] is the same as none, and the fallback
    decides the output directory.  The whole run is the same as with
    no [outDir].  In a process with an absolute working directory the
    output directory is [.actor] under the working directory if that
    exists (which is not the directory the empty path resolves to) and
    the working directory otherwise; the directory created is that
    directory, every file written is [actorspec.json] in it, and a run
    that returns has written exactly that file. *)
Theorem empty_outDir_as_omitted (w : World) (config : string) (silent : option bool) :
  Path.isAbsolute (cwd w) = true ->
  let run := generate w (mkArgs config (Some "") silent) in
  let dir := absPath w (outDirUsed w (Some "")) in
  let actor := Path.inDirectory (absPath w ".") ".actor" in
  outDirUsed w (Some "") = outDirUsed w None
  /\ run = generate w (mkArgs config None silent)
  /\ (existsSync w actor = true -> dir = actor /\ dir <> absPath w "")
  /\ (existsSync w actor = false -> dir = absPath w ".")
  /\ (forall p, In (Mkdir p) (fst run) -> p = dir)
  /\ (forall p data, In (p, data) (filesWritten run) ->
      p = Path.inDirectory dir "actorspec.json")
  /\ (snd run = Returned tt ->
      exists data,
        filesWritten run = [(Path.inDirectory dir "actorspec.json", data)]).
Proof.
  intros Hc run dir actor.
  assert (Hactor : absPath w "./.actor" = actor)
    by (apply (PathFacts.resolve_dot_name (cwd w) ".actor" Hc); reflexivity).
  assert (Hfile : Path.resolve (cwd w) [dir; "actorspec.json"]
                  = Path.inDirectory dir "actorspec.json")
    by (apply (PathFacts.resolve_in_directory (cwd w)); [assumption|reflexivity]).
  split; [reflexivity|]. split; [reflexivity|].
  split; [|split; [|split; [|split]]].
  - intros He. subst dir. rewrite <- Hactor in He.
    unfold outDirUsed. cbn [truthy String.eqb negb]. rewrite He.
    split; [assumption|]. rewrite Hactor. subst actor. unfold absPath.
    rewrite PathFacts.resolve_empty_dot by assumption.
    apply PathFacts.inDirectory_differs; [assumption|reflexivity].
  - intros He. subst dir. rewrite <- Hactor in He.
    unfold outDirUsed. cbn [truthy String.eqb negb]. now rewrite He.
  - intros p Hin.
    assert (Hin' : In (Mkdir p) (fsCalls run))
      by (apply filter_In; split; [assumption|reflexivity]).
    destruct (generate_fs_calls w (mkArgs config (Some "") silent))
      as [E|[E|[data E]]]; fold run in E; rewrite E in Hin'; simpl in Hin'.
    + contradiction.
    + destruct Hin' as [H|[]]. now inversion H.
    + destruct Hin' as [H|[H|[]]]; [now inversion H|discriminate].
  - intros p data Hin. rewrite filesWritten_fsCalls in Hin. rewrite <- Hfile.
    destruct (generate_fs_calls w (mkArgs config (Some "") silent))
      as [E|[E|[data' E]]]; fold run in E; rewrite E in Hin; simpl in Hin.
    + contradiction.
    + contradiction.
    + destruct Hin as [H|[]]. now inversion H.
  - intros Hret.
    destruct (generate_returned_calls w (mkArgs config (Some "") silent) Hret)
      as [data E].
    exists data. rewrite filesWritten_fsCalls. fold run in E. rewrite E, <- Hfile.
    reflexivity.
Qed.

Lemma empty_outDir_as_omitted_witness :
  let w := Example.world Example.demo true in
  let run := generate w (mkArgs "actorspec.config.js" (Some "") None) in
  existsSync w "/work/.actor" = true
  /\ run = generate w (mkArgs "actorspec.config.js" None None)
  /\ absPath w (outDirUsed w (Some "")) = "/work/.actor"
  /\ absPath w (outDirUsed w (Some "")) <> absPath w ""
  /\ exists data, filesWritten run = [("/work/.actor/actorspec.json", data)].
Proof.
  cbv zeta.
  destruct (empty_outDir_as_omitted
              (Example.world Example.demo true) "actorspec.config.js" None eq_refl)
    as (_ & Hrun & Hactor & _ & _ & _ & Hret).
  split; [reflexivity|]. split; [exact Hrun|].
  split; [exact (proj1 (Hactor eq_refl))|].
  split; [exact (proj2 (Hactor eq_refl))|].
  exact (Hret eq_refl).
Defined.

(** C8.  [absPath] is [path.resolve(cwd, filepath)]; [resolvePath] is
    that absolute path relative to the directory of the module: with
    absolute working and module directories, resolving it against the
    module directory gives the absolute path back.  Neither looks at
    the file system: the results depend on the two directories only. *)
Theorem path_helpers (w : World) (filepath : string) :
  absPath w filepath = Path.resolve (cwd w) [cwd w; filepath]
  /\ resolvePath w filepath
     = Path.relative (cwd w) (modulePath w) (absPath w filepath)
  /\ (Path.isAbsolute (cwd w) = true -> Path.isAbsolute (modulePath w) = true ->
      Path.resolve (cwd w) [modulePath w; resolvePath w filepath]
      = absPath w filepath)
  /\ (forall w', cwd w' = cwd w -> modulePath w' = modulePath w ->
      absPath w' filepath = absPath w filepath
      /\ resolvePath w' filepath = resolvePath w filepath).
Proof.
  split; [reflexivity|]. split; [reflexivity|]. split.
  - intros Hc Hm. unfold resolvePath, absPath.
    destruct (PathFacts.resolve_rooted (cwd w) [cwd w; filepath] Hc)
      as [segs [Hs ->]].
    now apply PathFacts.resolve_relative_from.
  - intros w' Hc Hm. unfold resolvePath, absPath. now rewrite Hc, Hm.
Qed.

Lemma path_helpers_witness :
  let w := Example.world Example.demo false in
  absPath w "cfg/../actorspec.config.js" = "/work/actorspec.config.js"
  /\ resolvePath w "cfg/../actorspec.config.js"
     = "../../../../../work/actorspec.config.js"
  /\ Path.resolve (cwd w) [modulePath w; resolvePath w "cfg/../actorspec.config.js"]
     = absPath w "cfg/../actorspec.config.js".
Proof.
  cbv zeta. split; [reflexivity|]. split; [reflexivity|].
  exact (proj1 (proj2 (proj2
           (path_helpers (Example.world Example.demo false)
              "cfg/../actorspec.config.js"))) eq_refl eq_refl).
Defined.

(** C7, counterexample.  [JSON.stringify] writes [null] for a number
    that is not finite: the object above is written, and the file
    parses to an object whose [pricing.value] is [null], which is not
    deep-equal to the export. *)
Lemma infinite_number_not_read_back :
  exists text parsed,
    snd (generate (Example.world unboundedPrice false) (Example.args None))
    = Returned tt
    /\ filesWritten (generate (Example.world unboundedPrice false) (Example.args None))
       = [("/work/actorspec.json", text)]
    /\ Json.parse text
       = Some parsed
    /\ parsed = VObject [("actorspecVersion", VNumber Example.one);
                         ("pricing", VObject [("value", VNull)])]
    /\ Json.deepEqual parsed unboundedPrice = false.
Proof.
  eexists. eexists. split; [reflexivity|]. split; [reflexivity|].
  split; [vm_compute; reflexivity|]. split; reflexivity.
Qed.

(** A JSON-representable number other than zero is truthy. *)
Lemma safe_nonzero_truthy (x : number) :
  Json.numberSafe x = true -> x <> Zero false -> truthy (VNumber x) = true.
Proof.
  destruct x as [| |[|]|neg ds n]; try discriminate; try reflexivity.
  intros _ H. now contradiction H.
Qed.

(** C7, amended.  When the default export is itself a plain object
    with a truthy [actorspecVersion], all of whose values are
    JSON-representable ([null], booleans, finite numbers other than
    the negative zero, strings, arrays and plain objects of these),
    and the directory creation and the write succeed, [generate]
    returns normally and writes exactly one file; its content is
    [JSON.stringify] of the object with two spaces: one member per
    line in the object's own key order, each indented by two spaces;
    and parsing the content gives a value deep-equal to the export. *)
Theorem object_export_written
    (w : World) (args : Args) (m : value) (props : list (string * value))
    (version : value) :
  let dir := absPath w (outDirUsed w (outDir args)) in
  let file := Path.resolve (cwd w) [dir; "actorspec.json"] in
  let text := Json.render "" (VObject props) in
  require w (resolvePath w (config args)) = Normal m ->
  Get m "default" = Normal (VObject props) ->
  Get (VObject props) "actorspecVersion" = Normal version ->
  truthy version = true ->
  Json.jsonSafe (VObject props) = true ->
  mkdir w dir = None ->
  writeFile w file text = None ->
  snd (generate w args) = Returned tt
  /\ filesWritten (generate w args) = [(file, text)]
  /\ Json.stringify (VObject props) 2 = Normal (Some text)
  /\ text = Json.wrap "{" "}" "  " "" "  "
              (map (fun kv => Json.QuoteJSONString (fst kv) ++ ": "
                              ++ Json.render "  " (snd kv)) props)
  /\ exists parsed,
       Json.parse text = Some parsed /\ Json.deepEqual parsed (VObject props) = true.
Proof.
  intros dir file text Hr Hg Hv Ht Hs Hmk Hwr.
  destruct (JsonFacts.parse_stringify (VObject props) Hs) as [Hstr Hparse].
  fold text in Hstr, Hparse.
  rewrite snd_generate_silenced, filesWritten_generate_silenced.
  rewrite (silent_object w (silenced args) m (VObject props) eq_refl Hr Hg
             eq_refl eq_refl).
  rewrite Hv, bind_try_normal, Ht. cbn [negb]. rewrite bind_ret_l.
  rewrite Hstr, bind_try_normal.
  change (outDir (silenced args)) with (outDir args). fold dir. fold file.
  unfold fspMkdir, fspWriteFile, bind, filesWritten. rewrite Hmk, Hwr.
  cbn [fst snd app flat_map ret].
  split; [reflexivity|]. split; [reflexivity|]. split; [reflexivity|]. split.
  - subst text. cbn [Json.render]. f_equal.
    apply map_ext. now intros [key x].
  - exists (VObject props). split; [assumption|].
    now apply JsonFacts.deepEqual_refl.
Qed.

Lemma object_export_written_witness :
  let w := Example.world Example.demo false in
  let args := Example.args None in
  snd (generate w args) = Returned tt
  /\ filesWritten (generate w args)
     = [("/work/actorspec.json", Json.render "" Example.demo)]
  /\ Json.stringify Example.demo 2 = Normal (Some (Json.render "" Example.demo))
  /\ Json.render "" Example.demo
     = Json.wrap "{" "}" "  " "" "  "
         (map (fun kv => Json.QuoteJSONString (fst kv) ++ ": "
                         ++ Json.render "  " (snd kv))
              [("actorspecVersion", VNumber Example.one);
               ("actor", VObject [("title", VString "Demo")])])
  /\ exists parsed,
       Json.parse (Json.render "" Example.demo) = Some parsed
       /\ Json.deepEqual parsed Example.demo = true.
Proof.
  cbv zeta.
  apply (object_export_written
           (Example.world Example.demo false) (Example.args None)
           (VObject [("__esModule", VBool true); ("default", Example.demo)])
           [("actorspecVersion", VNumber Example.one);
            ("actor", VObject [("title", VString "Demo")])]
           (VNumber Example.one)); reflexivity.
Defined.

(** A version that is not a number zero and yet not truthy: the
    export [{ actorspecVersion: NaN }] is refused. *)
Example nan_version_refused :
  raisedKind (generate (Example.world (VObject [("actorspecVersion", VNumber NaN)]) false)
                       (Example.args None))
  = Some MissingVersionError.
Proof. reflexivity. Qed.

(** ** [path] on examples *)

Example resolve_relative_segment : Path.resolve "/work" ["/work"; "./.actor"] = "/work/.actor".
Proof. reflexivity. Qed.

Example resolve_normalises : Path.resolve "/work" ["/work"; "../a//b/./c/"] = "/a/b/c".
Proof. reflexivity. Qed.

Example resolve_empty : Path.resolve "/work" ["/work"; ""] = "/work".
Proof. reflexivity. Qed.

Example resolve_above_root : Path.resolve "/work" ["/work"; "/../.."] = "/".
Proof. reflexivity. Qed.

Example relative_sibling : Path.relative "/work" "/a/b" "/a/bc" = "../bc".
Proof. reflexivity. Qed.

Example relative_child : Path.relative "/work" "/a" "/a/b" = "b".
Proof. reflexivity. Qed.

Example relative_to_root : Path.relative "/work" "/a/b" "/" = "../..".
Proof. reflexivity. Qed.

(* ================================================================== *)
(** * Part III: further properties of [generate] and the path helpers  *)
(* ================================================================== *)

(** ** The run, stage by stage, with what it prints *)

Module ProgressFacts.
Import Js Cli RunFacts GenerateFacts Progress.

Lemma logger_bind {B} (args : Args) (line : string) (k : Run B) :
  bind (logger args line) (fun _ => k) = ((said args line ++ fst k)%list, snd k).
Proof.
  unfold logger, said. destruct k as [t o].
  destruct (silent args) as [[|]|]; reflexivity.
Qed.

Lemma generate_logger (w : World) (args : Args) :
  generate w args =
    (logger args ("Importing file from " ++ absPath w (config args)) ;;
     exports <- try ImportError (require w (resolvePath w (config args))) ;;
     configOrInit <- try RuntimeError (Get exports "default") ;;
     (if negb (truthy configOrInit)
         || negb (includes ["function"; "object"] (typeof configOrInit))
      then
        got <- try RuntimeError (ToString configOrInit) ;;
        raise InvalidExportError
          (Error ("Failed to import actorspec from path " ++ absPath w (config args)
                  ++ ", got " ++ got ++ " instead"))
      else ret tt) ;;
     logger args "Actorspec found! Resolving..." ;;
     resolvedConfig <-
       (if typeof configOrInit =? "function"
        then (r <- call configOrInit ;; await r)
        else ret configOrInit) ;;
     (if negb (truthy resolvedConfig) || negb (typeof configOrInit =? "object")
      then
        got <- try RuntimeError (ToString configOrInit) ;;
        raise UnresolvedConfigError
          (Error ("Failed to import actorspec from path " ++ absPath w (config args)
                  ++ ", the import did not resolve to object, got "
                  ++ got ++ " instead"))
      else ret tt) ;;
     actorspecVersion <- try RuntimeError (Get resolvedConfig "actorspecVersion") ;;
     (if negb (truthy actorspecVersion)
      then
        raise MissingVersionError
          (Error ("Invalid actorspec object imported from path "
                  ++ absPath w (config args)
                  ++ ", config.actorspecVersion is missing"))
      else ret tt) ;;
     jsonConfig <- try RuntimeError (Json.stringify resolvedConfig 2) ;;
     logger args ("Writing resolved config to file " ++ outFilePath w args) ;;
     fspMkdir w (outDirPath w args) ;;
     fspWriteFile w (outFilePath w args) jsonConfig ;;
     logger args "Done!").
Proof. reflexivity. Qed.

(** A truthy value of type [object] has properties to read, and
    [JSON.stringify] gives text for it unless it throws. *)
Lemma object_get_normal (c : value) (key : string) :
  typeof c = "object" -> truthy c = true -> exists x, Get c key = Normal x.
Proof.
  destruct c; try discriminate; intros _ _; cbn [Get]; eauto.
  destruct (lookup key props); eauto.
Qed.

Lemma object_stringify_defined (c : value) (space : nat) :
  typeof c = "object" -> truthy c = true -> Json.stringify c space <> Normal None.
Proof.
  unfold Json.stringify.
  destruct c; try discriminate; intros _ _; cbn [Json.SerializeJSONProperty].
  - match goal with |- match ?m with _ => _ end <> _ => destruct m end; discriminate.
  - match goal with |- match ?m with _ => _ end <> _ => destruct m end; discriminate.
Qed.

(** Every run is of one of four kinds: it stops before the output is
    announced, with one or two lines printed and an outcome that is
    neither normal nor an error of the file system; or [fsp.mkdir]
    rejects; or [fsp.writeFile] rejects; or it goes through. *)
Lemma generate_cases (w : World) (args : Args) :
  (exists n o,
      (n = 1 \/ n = 2)
      /\ generate w args = (early w args n, o)
      /\ o <> Returned tt /\ (forall e, o <> Raised FilesystemError e))
  \/ (exists text e,
         serialisedExport w args text
         /\ mkdir w (outDirPath w args) = Some e
         /\ generate w args
            = ((early w args 3 ++ [Mkdir (outDirPath w args)])%list,
               Raised FilesystemError e))
  \/ (exists text e,
         serialisedExport w args text
         /\ mkdir w (outDirPath w args) = None
         /\ writeFile w (outFilePath w args) text = Some e
         /\ generate w args
            = ((early w args 3
                ++ [Mkdir (outDirPath w args); WriteFile (outFilePath w args) text])%list,
               Raised FilesystemError e))
  \/ (exists text,
         serialisedExport w args text
         /\ mkdir w (outDirPath w args) = None
         /\ writeFile w (outFilePath w args) text = None
         /\ generate w args
            = ((early w args 3
                ++ [Mkdir (outDirPath w args); WriteFile (outFilePath w args) text]
                ++ said args "Done!")%list,
               Returned tt)).
Proof.
  rewrite generate_logger. unfold early, progressLines.
  cbn [firstn flat_map]. rewrite ?List.app_nil_r.
  set (L1 := "Importing file from " ++ absPath w (config args)).
  set (L2 := "Actorspec found! Resolving...").
  set (L3 := "Writing resolved config to file " ++ outFilePath w args).
  assert (stop1 : forall o : outcome unit,
             o <> Returned tt -> (forall e, o <> Raised FilesystemError e) ->
             forall r, r = (said args L1, o) ->
             (exists n o',
                 (n = 1 \/ n = 2)
                 /\ r = (flat_map (said args) (firstn n [L1; L2; L3; "Done!"]), o')
                 /\ o' <> Returned tt /\ (forall e, o' <> Raised FilesystemError e))).
  { intros o H1 H2 r ->. exists 1, o. cbn [firstn flat_map].
    rewrite List.app_nil_r. auto. }
  assert (stop2 : forall o : outcome unit,
             o <> Returned tt -> (forall e, o <> Raised FilesystemError e) ->
             forall r, r = ((said args L1 ++ said args L2)%list, o) ->
             (exists n o',
                 (n = 1 \/ n = 2)
                 /\ r = (flat_map (said args) (firstn n [L1; L2; L3; "Done!"]), o')
                 /\ o' <> Returned tt /\ (forall e, o' <> Raised FilesystemError e))).
  { intros o H1 H2 r ->. exists 2, o. cbn [firstn flat_map].
    rewrite List.app_nil_r. auto. }
  rewrite logger_bind.
  destruct (require w (resolvePath w (config args))) as [m|e0] eqn:Hr.
  2:{ left. apply (stop1 (Raised ImportError e0)); (reflexivity || discriminate || idtac).
      now rewrite List.app_nil_r. }
  rewrite bind_try_normal.
  destruct (Get m "default") as [c|e0] eqn:Hg.
  2:{ left. apply (stop1 (Raised RuntimeError e0)); (reflexivity || discriminate || idtac).
      now rewrite List.app_nil_r. }
  rewrite bind_try_normal.
  destruct (negb (truthy c) || negb (includes ["function"; "object"] (typeof c)))
    eqn:Hc.
  { left. destruct (ToString c) as [got|e0].
    - rewrite bind_try_normal, bind_raise.
      eapply stop1; [| |cbn [fst snd raise]; now rewrite List.app_nil_r];
        discriminate.
    - eapply stop1; [| |cbn [fst snd raise try bind]; now rewrite List.app_nil_r];
        discriminate. }
  rewrite bind_ret_l, logger_bind.
  apply first_check_passed in Hc as [Ht [[source [body ->]]|Ho]].
  { left. cbn [typeof String.eqb Ascii.eqb Bool.eqb call].
    destruct body as [r|e0].
    2:{ eapply stop2; [| |cbn [fst snd raise try bind]; now rewrite List.app_nil_r];
          discriminate. }
    rewrite bind_try_normal. unfold await. destruct (Await r) as [[v|e0]|].
    - rewrite bind_try_normal. rewrite orb_true_r.
      cbn [ToString]. rewrite bind_try_normal, bind_raise.
      eapply stop2; [| |cbn [fst snd raise]; now rewrite List.app_nil_r];
        discriminate.
    - eapply stop2; [| |cbn [fst snd raise try bind]; now rewrite List.app_nil_r];
        discriminate.
    - eapply stop2; [| |cbn [fst snd bind]; now rewrite List.app_nil_r];
        discriminate. }
  rewrite Ho. cbn [String.eqb Ascii.eqb Bool.eqb negb].
  rewrite bind_ret_l, Ht. cbn [negb orb]. rewrite bind_ret_l.
  destruct (object_get_normal c "actorspecVersion" Ho Ht) as [version Hv].
  rewrite Hv, bind_try_normal.
  destruct (truthy version) eqn:Htv; cbn [negb].
  2:{ left. rewrite bind_raise.
      eapply stop2; [| |cbn [fst snd raise]; now rewrite List.app_nil_r];
        discriminate. }
  rewrite bind_ret_l.
  destruct (Json.stringify c 2) as [[text|]|e0] eqn:Hj.
  3:{ left.
      eapply stop2; [| |cbn [fst snd raise try bind]; now rewrite List.app_nil_r];
        discriminate. }
  2:{ now contradiction (object_stringify_defined c 2 Ho Ht). }
  rewrite bind_try_normal, logger_bind.
  assert (Hse : serialisedExport w args text)
    by (exists m, c, version; auto 10).
  right. unfold fspMkdir, fspWriteFile.
  destruct (mkdir w (outDirPath w args)) as [e0|] eqn:Hmk.
  { left. exists text, e0. split; [assumption|]. split; [reflexivity|].
    cbn [bind fst snd]. now rewrite !List.app_assoc. }
  right. destruct (writeFile w (outFilePath w args) text) as [e0|] eqn:Hwr.
  { left. exists text, e0. repeat (split; [assumption || reflexivity|]).
    cbn [bind fst snd app]. now rewrite !List.app_assoc. }
  right. exists text. repeat (split; [assumption || reflexivity|]).
  cbn [bind fst snd app].
  unfold logger, said. destruct (silent args) as [[|]|];
    cbn [bind fst snd app ret consoleLog]; now rewrite ?List.app_nil_r.
Qed.

(** *** Events that are printed lines only *)

Lemma said_logs (args : Args) (line : string) : forallb isLog (said args line) = true.
Proof. unfold said. now destruct (silent args) as [[|]|]. Qed.

Lemma early_logs (w : World) (args : Args) (n : nat) :
  forallb isLog (early w args n) = true.
Proof.
  unfold early. induction (firstn n (progressLines w args)) as [|l ls IH];
    [reflexivity|].
  cbn [flat_map]. now rewrite forallb_app, said_logs, IH.
Qed.

Lemma logs_no_fsCalls (l : list event) :
  forallb isLog l = true -> filter (fun e => negb (isLog e)) l = [].
Proof.
  induction l as [|e l IH]; [reflexivity|]. cbn [forallb filter].
  intros H. apply andb_true_iff in H as [He Hl]. now rewrite He, IH.
Qed.

Lemma logs_printed (l : list event) :
  forallb isLog l = true -> filter isLog l = l.
Proof.
  induction l as [|e l IH]; [reflexivity|]. cbn [forallb filter].
  intros H. apply andb_true_iff in H as [He Hl]. now rewrite He, IH.
Qed.

Lemma logs_no_files (l : list event) (o : outcome unit) :
  forallb isLog l = true -> filesWritten (l, o) = [].
Proof.
  unfold filesWritten. cbn [fst]. induction l as [|e l IH]; [reflexivity|].
  cbn [forallb flat_map]. intros H. apply andb_true_iff in H as [He Hl].
  destruct e; try discriminate. now rewrite IH.
Qed.

Lemma fsCalls_after_logs (l calls : list event) (o : outcome unit) :
  forallb isLog l = true ->
  fsCalls ((l ++ calls)%list, o) = filter (fun e => negb (isLog e)) calls.
Proof.
  intros H. unfold fsCalls. cbn [fst]. now rewrite filter_app, logs_no_fsCalls.
Qed.

Lemma filesWritten_after_logs (l calls : list event) (o : outcome unit) :
  forallb isLog l = true ->
  filesWritten ((l ++ calls)%list, o) = filesWritten (calls, o).
Proof.
  intros H. pose proof (logs_no_files l o H) as Hl.
  unfold filesWritten in *. cbn [fst] in *.
  now rewrite flat_map_app, Hl.
Qed.

Lemma printed_after_logs (l calls : list event) (o : outcome unit) :
  forallb isLog l = true ->
  printed ((l ++ calls)%list, o) = (l ++ filter isLog calls)%list.
Proof.
  intros H. unfold printed. cbn [fst]. now rewrite filter_app, logs_printed.
Qed.

(** When the lines are printed, [early] is the first [n] of them. *)
Lemma early_loud (w : World) (args : Args) (n : nat) :
  silent args <> Some true ->
  early w args n = map Log (firstn n (progressLines w args)).
Proof.
  intros H. unfold early. induction (firstn n (progressLines w args)) as [|l ls IH];
    [reflexivity|].
  cbn [flat_map map]. rewrite IH. unfold said.
  destruct (silent args) as [[|]|]; [now contradiction H|reflexivity|reflexivity].
Qed.

Lemma said_loud (args : Args) (line : string) :
  silent args <> Some true -> said args line = [Log line].
Proof.
  intros H. unfold said.
  destruct (silent args) as [[|]|]; [now contradiction H|reflexivity|reflexivity].
Qed.

(** *** Stages reached *)

(** The run of a module whose default export is a function. *)
Lemma generate_function_export (w : World) (args : Args) (m : value)
      (source : string) (body : completion value) :
  require w (resolvePath w (config args)) = Normal m ->
  Get m "default" = Normal (VFunction source body) ->
  generate w args =
    (early w args 2,
     snd (resolvedConfig <- (r <- try FactoryError body ;; await r) ;;
          raise (A := unit) UnresolvedConfigError
            (Error ("Failed to import actorspec from path " ++ absPath w (config args)
                    ++ ", the import did not resolve to object, got "
                    ++ source ++ " instead")))).
Proof.
  intros Hr Hg. rewrite generate_logger, logger_bind, Hr, bind_try_normal, Hg,
    bind_try_normal.
  cbn [truthy typeof includes existsb String.eqb Ascii.eqb Bool.eqb negb orb andb].
  rewrite bind_ret_l, logger_bind. unfold early, progressLines.
  cbn [firstn flat_map fst snd call]. rewrite List.app_nil_r.
  destruct body as [r|e]; [|cbn; now rewrite !List.app_nil_r].
  rewrite !bind_try_normal. unfold await.
  destruct (Await r) as [[v|e]|]; try (cbn; now rewrite !List.app_nil_r).
  rewrite !bind_try_normal, orb_true_r. cbn. now rewrite !List.app_nil_r.
Qed.

(** The run of a module whose default export is a truthy value of type
    [object], up to the version check. *)
Lemma generate_object_export (w : World) (args : Args) (m c version : value) :
  require w (resolvePath w (config args)) = Normal m ->
  Get m "default" = Normal c ->
  typeof c = "object" -> truthy c = true ->
  Get c "actorspecVersion" = Normal version ->
  generate w args =
    if truthy version then
      match Json.stringify c 2 with
      | Throw e => (early w args 2, Raised RuntimeError e)
      | Normal jsonConfig =>
          let k := fspMkdir w (outDirPath w args) ;;
                   fspWriteFile w (outFilePath w args) jsonConfig ;;
                   logger args "Done!" in
          ((early w args 3 ++ fst k)%list, snd k)
      end
    else
      (early w args 2,
       Raised MissingVersionError
         (Error ("Invalid actorspec object imported from path "
                 ++ absPath w (config args) ++ ", config.actorspecVersion is missing"))).
Proof.
  intros Hr Hg Ho Ht Hv.
  rewrite generate_logger, logger_bind, Hr, bind_try_normal, Hg, bind_try_normal.
  rewrite Ht, Ho.
  cbn [includes existsb String.eqb Ascii.eqb Bool.eqb negb orb andb].
  rewrite bind_ret_l, logger_bind, bind_ret_l, Ht. cbn [negb orb].
  rewrite bind_ret_l, Hv, bind_try_normal.
  unfold early, progressLines. cbn [firstn flat_map]. rewrite !List.app_nil_r.
  destruct (truthy version); cbn [negb].
  - rewrite bind_ret_l. destruct (Json.stringify c 2) as [j|e].
    + rewrite bind_try_normal, logger_bind. cbv zeta. cbn [fst snd].
      now rewrite !List.app_assoc.
    + cbn [try bind raise fst snd]. now rewrite !List.app_nil_r.
  - rewrite bind_raise. cbn [raise fst snd]. now rewrite !List.app_nil_r.
Qed.

(** The run once the export has passed the checks and is serialised. *)
Lemma generate_serialised (w : World) (args : Args) (text : string) :
  serialisedExport w args text ->
  generate w args =
    let k := fspMkdir w (outDirPath w args) ;;
             fspWriteFile w (outFilePath w args) (Some text) ;;
             logger args "Done!" in
    ((early w args 3 ++ fst k)%list, snd k).
Proof.
  intros (m & c & version & Hr & Hg & Ho & Ht & Hv & Htv & Hj).
  rewrite (generate_object_export w args m c version Hr Hg Ho Ht Hv).
  now rewrite Htv, Hj.
Qed.

End ProgressFacts.

(** ** Failures that are passed on *)

Import Js Cli RunFacts GenerateFacts Progress ProgressFacts.

(** X1.  When [require] throws, [generate] raises that very error;
    only the first progress line has been printed and the file system
    has not been touched. *)
Theorem import_failure_passed_on (w : World) (args : Args) (e : error) :
  require w (resolvePath w (config args)) = Throw e ->
  generate w args = (early w args 1, Raised ImportError e).
Proof.
  intros Hr. rewrite generate_logger, logger_bind, Hr.
  unfold early, progressLines. cbn [firstn flat_map try raise bind fst snd].
  reflexivity.
Qed.

Lemma import_failure_passed_on_witness :
  generate (Example.world Example.demo false) (mkArgs "missing.js" None None)
  = ([Log "Importing file from /work/missing.js"],
     Raised ImportError
       (mkError "Error" "Cannot find module '../../../../../work/missing.js'")).
Proof.
  exact (import_failure_passed_on
           (Example.world Example.demo false) (mkArgs "missing.js" None None)
           (mkError "Error" "Cannot find module '../../../../../work/missing.js'")
           eq_refl).
Defined.

(** X2.  When the default export is a function that throws, or whose
    promise rejects, [generate] raises that very error after two
    progress lines, and the file system has not been touched. *)
Theorem factory_failure_passed_on
    (w : World) (args : Args) (m : value) (source : string)
    (body : completion value) (e : error) :
  require w (resolvePath w (config args)) = Normal m ->
  Get m "default" = Normal (VFunction source body) ->
  body = Throw e \/ (exists r, body = Normal r /\ Await r = Some (Throw e)) ->
  generate w args = (early w args 2, Raised FactoryError e).
Proof.
  intros Hr Hg Hb. rewrite (generate_function_export w args m source body Hr Hg).
  destruct Hb as [->|[r [-> Ha]]]; [reflexivity|].
  rewrite bind_try_normal. unfold await. now rewrite Ha.
Qed.

Lemma factory_failure_passed_on_witness :
  generate
    (Example.world
       (VFunction "async () => { throw new Error('no network') }"
                  (Normal (VPromise (Rejected (mkError "Error" "no network")))))
       false)
    (Example.args None)
  = ([Log "Importing file from /work/actorspec.config.js";
      Log "Actorspec found! Resolving..."],
     Raised FactoryError (mkError "Error" "no network")).
Proof.
  apply (factory_failure_passed_on
           (Example.world
              (VFunction "async () => { throw new Error('no network') }"
                         (Normal (VPromise (Rejected (mkError "Error" "no network")))))
              false)
           (Example.args None)
           (VObject [("__esModule", VBool true);
                     ("default",
                      VFunction "async () => { throw new Error('no network') }"
                        (Normal (VPromise (Rejected (mkError "Error" "no network")))))])
           "async () => { throw new Error('no network') }"
           (Normal (VPromise (Rejected (mkError "Error" "no network")))));
    [reflexivity|reflexivity|].
  right. exists (VPromise (Rejected (mkError "Error" "no network"))).
  split; reflexivity.
Defined.

(** X3.  When the default export is a function whose promise never
    settles, [generate] neither returns nor raises: it waits in
    [await], after two progress lines, with the file system untouched.
    There is no timeout. *)
Theorem unsettled_factory_hangs
    (w : World) (args : Args) (m : value) (source : string) :
  require w (resolvePath w (config args)) = Normal m ->
  Get m "default" = Normal (VFunction source (Normal (VPromise Pending))) ->
  generate w args = (early w args 2, Hangs).
Proof.
  intros Hr Hg.
  now rewrite (generate_function_export w args m source _ Hr Hg).
Qed.

Lemma unsettled_factory_hangs_witness :
  generate (Example.world (VFunction "() => new Promise(() => {})"
                                     (Normal (VPromise Pending))) false)
           (mkArgs "actorspec.config.js" None (Some true))
  = ([], Hangs).
Proof.
  exact (unsettled_factory_hangs
           (Example.world (VFunction "() => new Promise(() => {})"
                                     (Normal (VPromise Pending))) false)
           (mkArgs "actorspec.config.js" None (Some true))
           (VObject [("__esModule", VBool true);
                     ("default", VFunction "() => new Promise(() => {})"
                                           (Normal (VPromise Pending)))])
           "() => new Promise(() => {})" eq_refl eq_refl).
Defined.

(** X4.  A promise exported as it is (not a function returning it) is
    not awaited: whatever its state, pending included, the run goes
    straight to the version check, finds no [actorspecVersion] on the
    promise and raises the missing-version error. *)
Theorem exported_promise_not_awaited
    (w : World) (args : Args) (m : value) (state : settle value) :
  require w (resolvePath w (config args)) = Normal m ->
  Get m "default" = Normal (VPromise state) ->
  generate w args =
    (early w args 2,
     Raised MissingVersionError
       (Error ("Invalid actorspec object imported from path "
               ++ absPath w (config args) ++ ", config.actorspecVersion is missing"))).
Proof.
  intros Hr Hg.
  exact (generate_object_export w args m (VPromise state) VUndefined
           Hr Hg eq_refl eq_refl eq_refl).
Qed.

Lemma exported_promise_not_awaited_witness :
  generate (Example.world (VPromise (Fulfilled Example.demo)) false) (Example.args None)
  = ([Log "Importing file from /work/actorspec.config.js";
      Log "Actorspec found! Resolving..."],
     Raised MissingVersionError
       (Error ("Invalid actorspec object imported from path /work/actorspec.config.js"
               ++ ", config.actorspecVersion is missing"))).
Proof.
  exact (exported_promise_not_awaited
           (Example.world (VPromise (Fulfilled Example.demo)) false) (Example.args None)
           (VObject [("__esModule", VBool true);
                     ("default", VPromise (Fulfilled Example.demo))])
           (Fulfilled Example.demo) eq_refl eq_refl).
Defined.

(** X5.  An array exported as the config passes both checks on the
    export and fails at the version check, whatever its elements: the
    run raises the missing-version error and nothing is written. *)
Theorem array_export_missing_version
    (w : World) (args : Args) (m : value) (elems : list value) :
  require w (resolvePath w (config args)) = Normal m ->
  Get m "default" = Normal (VArray elems) ->
  generate w args =
    (early w args 2,
     Raised MissingVersionError
       (Error ("Invalid actorspec object imported from path "
               ++ absPath w (config args) ++ ", config.actorspecVersion is missing"))).
Proof.
  intros Hr Hg.
  exact (generate_object_export w args m (VArray elems) VUndefined
           Hr Hg eq_refl eq_refl eq_refl).
Qed.

Lemma array_export_missing_version_witness :
  generate (Example.world (VArray [Example.demo]) false) (Example.args None)
  = ([Log "Importing file from /work/actorspec.config.js";
      Log "Actorspec found! Resolving..."],
     Raised MissingVersionError
       (Error ("Invalid actorspec object imported from path /work/actorspec.config.js"
               ++ ", config.actorspecVersion is missing"))).
Proof.
  exact (array_export_missing_version
           (Example.world (VArray [Example.demo]) false) (Example.args None)
           (VObject [("__esModule", VBool true); ("default", VArray [Example.demo])])
           [Example.demo] eq_refl eq_refl).
Defined.

(** X6.  A symbol exported as the config fails the first check, but
    the message of the error cannot be built: the template literal
    throws a [TypeError], and that is what [generate] raises, without
    the path of the config file. *)
Theorem symbol_export_type_error
    (w : World) (args : Args) (m : value) (description : string) :
  require w (resolvePath w (config args)) = Normal m ->
  Get m "default" = Normal (VSymbol description) ->
  generate w args =
    (early w args 1,
     Raised RuntimeError (TypeError "Cannot convert a Symbol value to a string")).
Proof.
  intros Hr Hg.
  rewrite generate_logger, logger_bind, Hr, bind_try_normal, Hg, bind_try_normal.
  unfold early, progressLines. cbn. reflexivity.
Qed.

Lemma symbol_export_type_error_witness :
  generate (Example.world (VSymbol "actorspec") false) (Example.args None)
  = ([Log "Importing file from /work/actorspec.config.js"],
     Raised RuntimeError (TypeError "Cannot convert a Symbol value to a string")).
Proof.
  exact (symbol_export_type_error
           (Example.world (VSymbol "actorspec") false) (Example.args None)
           (VObject [("__esModule", VBool true); ("default", VSymbol "actorspec")])
           "actorspec" eq_refl eq_refl).
Defined.

(** ** The version check, the serialisation and the file system *)

(** X7.  For a default export that is itself a truthy value of type
    [object], the missing-version error is raised exactly when its
    [actorspecVersion] is falsy. *)
Theorem version_check_decides (w : World) (args : Args) (m c version : value) :
  require w (resolvePath w (config args)) = Normal m ->
  Get m "default" = Normal c ->
  typeof c = "object" -> truthy c = true ->
  Get c "actorspecVersion" = Normal version ->
  (raisedKind (generate w args) = Some MissingVersionError <-> truthy version = false).
Proof.
  intros Hr Hg Ho Ht Hv.
  rewrite (generate_object_export w args m c version Hr Hg Ho Ht Hv).
  destruct (truthy version); split; try discriminate; try reflexivity.
  intros H. exfalso. destruct (Json.stringify c 2) as [j|e]; [|discriminate].
  cbv zeta in H. unfold raisedKind in H. cbn [snd] in H.
  unfold fspMkdir, fspWriteFile, logger, bind in H.
  destruct (mkdir w _); [discriminate|].
  destruct j as [text|]; [|discriminate].
  destruct (writeFile w _ _); [discriminate|].
  destruct (silent args) as [[|]|]; discriminate.
Qed.

Lemma version_check_decides_witness :
  raisedKind (generate (Example.world (VObject [("actorspecVersion", VString "")]) false)
                       (Example.args None))
  = Some MissingVersionError
  <-> truthy (VString "") = false.
Proof.
  exact (version_check_decides
           (Example.world (VObject [("actorspecVersion", VString "")]) false)
           (Example.args None)
           (VObject [("__esModule", VBool true);
                     ("default", VObject [("actorspecVersion", VString "")])])
           (VObject [("actorspecVersion", VString "")]) (VString "")
           eq_refl eq_refl eq_refl eq_refl eq_refl).
Defined.

(** [{ actorspecVersion: 1, size: 10n }] *)
Lemma bigint_member_throws :
  Json.stringify (VObject [("actorspecVersion", VNumber Example.one);
                           ("size", VBigInt 10)]) 2
  = Throw (TypeError "Do not know how to serialize a BigInt").
Proof. reflexivity. Qed.

(** X8.  When [JSON.stringify] throws, [generate] raises that error
    after two progress lines, with neither [fsp.mkdir] nor
    [fsp.writeFile] called; and the run is the same whatever [outDir]
    is given and whatever [fs.existsSync], [fsp.mkdir] and
    [fsp.writeFile] would answer. *)
Theorem serialisation_failure_before_fs
    (w : World) (args : Args) (m c version : value) (e : error) :
  require w (resolvePath w (config args)) = Normal m ->
  Get m "default" = Normal c ->
  typeof c = "object" -> truthy c = true ->
  Get c "actorspecVersion" = Normal version -> truthy version = true ->
  Json.stringify c 2 = Throw e ->
  generate w args = (early w args 2, Raised RuntimeError e)
  /\ forall (outDir' : option string) (existsSync' : string -> bool)
            (mkdir' : string -> option error)
            (writeFile' : string -> string -> option error),
       generate (mkWorld (cwd w) (modulePath w) (require w)
                         existsSync' mkdir' writeFile')
                (mkArgs (config args) outDir' (silent args))
       = generate w args.
Proof.
  intros Hr Hg Ho Ht Hv Htv Hj.
  assert (E : generate w args = (early w args 2, Raised RuntimeError e)).
  { rewrite (generate_object_export w args m c version Hr Hg Ho Ht Hv).
    now rewrite Htv, Hj. }
  split; [exact E|]. intros outDir' existsSync' mkdir' writeFile'. rewrite E.
  rewrite (generate_object_export
             (mkWorld (cwd w) (modulePath w) (require w) existsSync' mkdir' writeFile')
             (mkArgs (config args) outDir' (silent args)) m c version Hr Hg Ho Ht Hv).
  rewrite Htv, Hj. reflexivity.
Qed.

Lemma serialisation_failure_before_fs_witness :
  generate (Example.world (VObject [("actorspecVersion", VNumber Example.one);
                                    ("size", VBigInt 10)]) false)
           (Example.args None)
  = ([Log "Importing file from /work/actorspec.config.js";
      Log "Actorspec found! Resolving..."],
     Raised RuntimeError (TypeError "Do not know how to serialize a BigInt"))
  /\ generate (Example.readOnlyWorld (VObject [("actorspecVersion", VNumber Example.one);
                                               ("size", VBigInt 10)]))
              (Example.args (Some "out"))
     = generate (Example.world (VObject [("actorspecVersion", VNumber Example.one);
                                         ("size", VBigInt 10)]) false)
                (Example.args None).
Proof.
  destruct (serialisation_failure_before_fs
              (Example.world (VObject [("actorspecVersion", VNumber Example.one);
                                       ("size", VBigInt 10)]) false)
              (Example.args None)
              (VObject [("__esModule", VBool true);
                        ("default", VObject [("actorspecVersion", VNumber Example.one);
                                             ("size", VBigInt 10)])])
              (VObject [("actorspecVersion", VNumber Example.one); ("size", VBigInt 10)])
              (VNumber Example.one)
              (TypeError "Do not know how to serialize a BigInt")
              eq_refl eq_refl eq_refl eq_refl eq_refl eq_refl eq_refl)
    as [Hrun Hsame].
  split; [exact Hrun|].
  exact (Hsame (Some "out") (fun _ => false)
               (fun p => Some (mkError "Error"
                                 ("EACCES: permission denied, mkdir '" ++ p ++ "'")))
               (fun _ _ => None)).
Defined.

(** X9.  When the export is valid and [fsp.mkdir] rejects, [generate]
    raises that very error; the destination has been announced,
    [fsp.writeFile] is not called and the last line is not printed. *)
Theorem mkdir_failure_passed_on
    (w : World) (args : Args) (text : string) (e : error) :
  serialisedExport w args text ->
  mkdir w (outDirPath w args) = Some e ->
  generate w args
  = ((early w args 3 ++ [Mkdir (outDirPath w args)])%list, Raised FilesystemError e).
Proof.
  intros Hs Hmk. rewrite (generate_serialised w args text Hs).
  cbv zeta. unfold fspMkdir, bind. now rewrite Hmk.
Qed.

Lemma mkdir_failure_passed_on_witness :
  generate (Example.readOnlyWorld Example.demo) (Example.args (Some "out"))
  = ([Log "Importing file from /work/actorspec.config.js";
      Log "Actorspec found! Resolving...";
      Log "Writing resolved config to file /work/out/actorspec.json";
      Mkdir "/work/out"],
     Raised FilesystemError
       (mkError "Error" "EACCES: permission denied, mkdir '/work/out'")).
Proof.
  apply (mkdir_failure_passed_on
           (Example.readOnlyWorld Example.demo) (Example.args (Some "out"))
           (Json.render "" Example.demo)); [|reflexivity].
  exists (VObject [("__esModule", VBool true); ("default", Example.demo)]),
    Example.demo, (VNumber Example.one).
  repeat split.
Defined.

(** X10.  When the export is valid, the directory is created and
    [fsp.writeFile] rejects, [generate] raises that very error and
    the last line is not printed. *)
Theorem write_failure_passed_on
    (w : World) (args : Args) (text : string) (e : error) :
  serialisedExport w args text ->
  mkdir w (outDirPath w args) = None ->
  writeFile w (outFilePath w args) text = Some e ->
  generate w args
  = ((early w args 3
      ++ [Mkdir (outDirPath w args); WriteFile (outFilePath w args) text])%list,
     Raised FilesystemError e).
Proof.
  intros Hs Hmk Hwr. rewrite (generate_serialised w args text Hs).
  cbv zeta. unfold fspMkdir, fspWriteFile, bind. now rewrite Hmk, Hwr.
Qed.

Lemma write_failure_passed_on_witness :
  snd (generate (Example.fullDiskWorld Example.demo) (Example.args None))
  = Raised FilesystemError
      (mkError "Error" "ENOSPC: no space left on device, write")
  /\ fsCalls (generate (Example.fullDiskWorld Example.demo) (Example.args None))
     = [Mkdir "/work"; WriteFile "/work/actorspec.json" (Json.render "" Example.demo)].
Proof.
  assert (H : generate (Example.fullDiskWorld Example.demo) (Example.args None)
              = ((early (Example.fullDiskWorld Example.demo) (Example.args None) 3
                  ++ [Mkdir "/work";
                      WriteFile "/work/actorspec.json" (Json.render "" Example.demo)])%list,
                 Raised FilesystemError
                   (mkError "Error" "ENOSPC: no space left on device, write"))).
  { apply (write_failure_passed_on
             (Example.fullDiskWorld Example.demo) (Example.args None)
             (Json.render "" Example.demo)); [|reflexivity|reflexivity].
    exists (VObject [("__esModule", VBool true); ("default", Example.demo)]),
      Example.demo, (VNumber Example.one).
    repeat split. }
  rewrite H. split; reflexivity.
Defined.

(** X11.  [generate] returns normally exactly when the export is
    valid and both [fsp.mkdir] and [fsp.writeFile] succeed; its
    file-system calls are then the [mkdir] of the output directory
    followed by the one [writeFile] of the serialised export. *)
Theorem returns_iff_written (w : World) (args : Args) :
  (snd (generate w args) = Returned tt
   <-> exists text,
         serialisedExport w args text
         /\ mkdir w (outDirPath w args) = None
         /\ writeFile w (outFilePath w args) text = None)
  /\ (forall text,
        serialisedExport w args text ->
        mkdir w (outDirPath w args) = None ->
        writeFile w (outFilePath w args) text = None ->
        fsCalls (generate w args)
        = [Mkdir (outDirPath w args); WriteFile (outFilePath w args) text]).
Proof.
  split; [split|].
  - intros H.
    destruct (generate_cases w args)
      as [(n & o & _ & E & Ho & _)|[(text & e & _ & _ & E)
         |[(text & e & _ & _ & _ & E)|(text & Hs & Hmk & Hwr & E)]]];
      rewrite E in H; cbn [snd] in H; try discriminate.
    + now contradiction Ho.
    + now exists text.
  - intros (text & Hs & Hmk & Hwr).
    rewrite (generate_serialised w args text Hs). cbv zeta.
    unfold fspMkdir, fspWriteFile, logger, bind. rewrite Hmk, Hwr.
    now destruct (silent args) as [[|]|].
  - intros text Hs Hmk Hwr.
    rewrite (generate_serialised w args text Hs). cbv zeta.
    rewrite fsCalls_after_logs by apply early_logs.
    unfold fspMkdir, fspWriteFile, logger, bind. rewrite Hmk, Hwr.
    now destruct (silent args) as [[|]|].
Qed.

(** X12.  [generate] writes at most one file.  A file it writes is
    [actorspec.json] of the output directory, its content is the
    serialisation of a default export that passed the checks, and the
    directory has been created before. *)
Theorem written_file_is_valid_export (w : World) (args : Args) :
  List.length (filesWritten (generate w args)) <= 1
  /\ forall p text,
       In (p, text) (filesWritten (generate w args)) ->
       p = outFilePath w args
       /\ serialisedExport w args text
       /\ mkdir w (outDirPath w args) = None.
Proof.
  destruct (generate_cases w args)
    as [(n & o & _ & E & _)|[(text & e & _ & _ & E)
       |[(text & e & Hs & Hmk & _ & E)|(text & Hs & Hmk & _ & E)]]];
    rewrite E.
  - rewrite <- (List.app_nil_r (early w args n)).
    rewrite filesWritten_after_logs by apply early_logs.
    split; [cbn; lia|intros p t []].
  - rewrite filesWritten_after_logs by apply early_logs.
    split; [cbn; lia|intros p t []].
  - rewrite filesWritten_after_logs by apply early_logs.
    split; [cbn; lia|]. intros p t [H|[]]. now inversion H; subst.
  - rewrite filesWritten_after_logs by apply early_logs.
    unfold filesWritten. cbn [fst app flat_map].
    pose proof (logs_no_files (said args "Done!") (Returned tt) (said_logs _ _)) as Hd.
    unfold filesWritten in Hd. cbn [fst] in Hd. rewrite Hd.
    split; [cbn; lia|]. intros p t [H|[]]. now inversion H; subst.
Qed.

(** X13.  Unless [silent], a run prints the first [n] of the four
    progress lines, in order, for some [n] from 1 to 4: all four
    exactly when it returns normally, and the third (the destination)
    exactly when it goes on to call the file system. *)
Theorem progress_lines_in_order (w : World) (args : Args) :
  silent args <> Some true ->
  exists n,
    1 <= n <= 4
    /\ printed (generate w args) = map Log (firstn n (progressLines w args))
    /\ (n = 4 <-> snd (generate w args) = Returned tt)
    /\ (3 <= n <-> fsCalls (generate w args) <> []).
Proof.
  intros Hl.
  destruct (generate_cases w args)
    as [(n & o & Hn & E & Ho & _)|[(text & e & _ & _ & E)
       |[(text & e & _ & _ & _ & E)|(text & _ & _ & _ & E)]]];
    rewrite E.
  - exists n. split; [lia|]. rewrite <- (List.app_nil_r (early w args n)).
    rewrite printed_after_logs, fsCalls_after_logs by apply early_logs.
    cbn [filter]. rewrite List.app_nil_r, early_loud by assumption.
    split; [reflexivity|]. cbn [snd]. split; split; intros H;
      try lia; try congruence.
  - exists 3. split; [lia|].
    rewrite printed_after_logs, fsCalls_after_logs by apply early_logs.
    cbn [filter isLog negb]. rewrite List.app_nil_r, early_loud by assumption.
    split; [reflexivity|]. cbn [snd]. split; split; intros H;
      try lia; try discriminate.
  - exists 3. split; [lia|].
    rewrite printed_after_logs, fsCalls_after_logs by apply early_logs.
    cbn [filter isLog negb]. rewrite List.app_nil_r, early_loud by assumption.
    split; [reflexivity|]. cbn [snd]. split; split; intros H;
      try lia; try discriminate.
  - exists 4. split; [lia|].
    rewrite printed_after_logs, fsCalls_after_logs by apply early_logs.
    rewrite said_loud by assumption.
    cbn [app filter isLog negb]. rewrite early_loud by assumption.
    split; [reflexivity|]. cbn [snd]. split; split; intros H;
      try lia; try discriminate; reflexivity.
Qed.

Lemma progress_lines_in_order_witness :
  exists n,
    1 <= n <= 4
    /\ printed (generate (Example.readOnlyWorld Example.demo) (Example.args None))
       = map Log (firstn n (progressLines (Example.readOnlyWorld Example.demo)
                                          (Example.args None)))
    /\ (n = 4 <-> snd (generate (Example.readOnlyWorld Example.demo) (Example.args None))
                  = Returned tt)
    /\ (3 <= n <-> fsCalls (generate (Example.readOnlyWorld Example.demo)
                                     (Example.args None)) <> []).
Proof.
  apply (progress_lines_in_order (Example.readOnlyWorld Example.demo) (Example.args None)).
  discriminate.
Defined.

(** ** The path helpers *)

Module HelperFacts.
Import Str StrFacts Path PathFacts.

Lemma resolve_last_absolute (cwd a q : string) :
  isAbsolute q = true -> resolve cwd [a; q] = resolve cwd [q].
Proof.
  intros Hq. destruct (isAbsolute_inv _ Hq) as [rest ->]. reflexivity.
Qed.

Lemma resolve_one_any_cwd (cwd cwd' p : string) :
  isAbsolute p = true -> resolve cwd [p] = resolve cwd' [p].
Proof. intros Hp. now rewrite !resolve_one. Qed.

Lemma dropCommon_prefix (l rest : list string) :
  dropCommon l (l ++ rest) = ([], rest).
Proof.
  induction l as [|x l IH]; [now destruct rest|].
  cbn [app dropCommon]. now rewrite String.eqb_refl.
Qed.

Lemma concat_relative (l : list string) :
  Forall (fun seg => lacks sep seg = true /\ seg <> "") l ->
  isAbsolute (String.concat "/" l) = false.
Proof.
  intros H. destruct l as [|x l]; [reflexivity|].
  inversion H as [|? ? [Hl Hne] _]; subst.
  destruct x as [|c x]; [contradiction|].
  simpl in Hl. apply andb_true_iff in Hl as [Hc _]. apply negb_true_iff in Hc.
  destruct l; simpl; assumption.
Qed.

Lemma relative_not_absolute (cwd p : string) (toSegs : list string) :
  isAbsolute p = true -> allPlain toSegs ->
  isAbsolute (relative cwd p (rooted toSegs)) = false.
Proof.
  intros Hp Ht. destruct (resolve_one_rooted cwd p Hp) as [E Hplain].
  unfold relative. destruct (p =? rooted toSegs); [reflexivity|].
  rewrite (resolve_rooted_id cwd toSegs Ht), E.
  destruct (_ =? _); [reflexivity|].
  rewrite !segments_rooted by assumption.
  destruct (dropCommon _ toSegs) as [fromRest toRest] eqn:D.
  apply dropCommon_spec in D as [common [Ef ->]].
  rewrite Ef in Hplain.
  apply allPlain_app_inv in Hplain as [_ Hfr].
  apply allPlain_app_inv in Ht as [_ Htr].
  apply concat_relative. apply Forall_app. split.
  - rewrite map_const_repeat. clear. induction (List.length fromRest); simpl;
      constructor; auto. split; [reflexivity|discriminate].
  - eapply Forall_impl; [|exact Htr]. intros seg H.
    apply plain_inv in H as (? & ? & _). auto.
Qed.

Lemma relative_empty_iff (cwd p : string) (toSegs : list string) :
  isAbsolute p = true -> allPlain toSegs ->
  (relative cwd p (rooted toSegs) = "" <-> resolve cwd [p] = rooted toSegs).
Proof.
  intros Hp Ht. split.
  - intros E. pose proof (resolve_relative_from cwd p toSegs Hp Ht) as H.
    rewrite E, resolve_two_empty in H by assumption. exact H.
  - intros E. unfold relative. destruct (p =? rooted toSegs); [reflexivity|].
    rewrite (resolve_rooted_id cwd toSegs Ht), E. now rewrite String.eqb_refl.
Qed.

End HelperFacts.

Import Path PathFacts HelperFacts.

(** X14.  In a process with an absolute working directory, [absPath]
    returns a normalised absolute path: a slash followed by segments
    that are not empty, not [.] and not [..], joined by slashes.
    Applying it again changes nothing. *)
Theorem absPath_normalised (w : World) (filepath : string) :
  isAbsolute (cwd w) = true ->
  (exists segs, allPlain segs /\ absPath w filepath = rooted segs)
  /\ absPath w (absPath w filepath) = absPath w filepath.
Proof.
  intros Hc. unfold absPath.
  destruct (resolve_rooted (cwd w) [cwd w; filepath] Hc) as [segs [Hs E]].
  split; [now exists segs|]. rewrite E.
  rewrite resolve_last_absolute by apply rooted_absolute.
  now apply resolve_rooted_id.
Qed.

Lemma absPath_normalised_witness :
  (exists segs, allPlain segs
                /\ absPath (Example.world Example.demo false) "a/./b//../c/"
                   = rooted segs)
  /\ absPath (Example.world Example.demo false)
             (absPath (Example.world Example.demo false) "a/./b//../c/")
     = absPath (Example.world Example.demo false) "a/./b//../c/".
Proof.
  exact (absPath_normalised (Example.world Example.demo false) "a/./b//../c/" eq_refl).
Defined.

(** X15.  An absolute path is resolved without the working directory:
    [absPath] gives the same result for it in every process. *)
Theorem absPath_of_absolute (w w' : World) (filepath : string) :
  isAbsolute filepath = true ->
  absPath w filepath = absPath w' filepath.
Proof.
  intros Hp. unfold absPath. rewrite !resolve_last_absolute by assumption.
  now apply resolve_one_any_cwd.
Qed.

Lemma absPath_of_absolute_witness :
  absPath (Example.world Example.demo false) "/etc/actor/../actorspec.js"
  = absPath (mkWorld "/home/me" "/opt" (fun _ => Normal VUndefined)
                     (fun _ => false) (fun _ => None) (fun _ _ => None))
            "/etc/actor/../actorspec.js".
Proof.
  exact (absPath_of_absolute (Example.world Example.demo false)
           (mkWorld "/home/me" "/opt" (fun _ => Normal VUndefined)
                    (fun _ => false) (fun _ => None) (fun _ _ => None))
           "/etc/actor/../actorspec.js" eq_refl).
Defined.

(** X16.  With absolute working and module directories, [resolvePath]
    never returns an absolute path; it returns the empty string exactly
    when the path given is the module directory itself. *)
Theorem resolvePath_relative (w : World) (filepath : string) :
  isAbsolute (cwd w) = true -> isAbsolute (modulePath w) = true ->
  isAbsolute (resolvePath w filepath) = false
  /\ (resolvePath w filepath = ""
      <-> absPath w filepath = resolve (cwd w) [modulePath w]).
Proof.
  intros Hc Hm. unfold resolvePath, absPath.
  destruct (resolve_rooted (cwd w) [cwd w; filepath] Hc) as [segs [Hs ->]].
  split.
  - now apply relative_not_absolute.
  - rewrite relative_empty_iff by assumption. split; congruence.
Qed.

Lemma resolvePath_relative_witness :
  isAbsolute (resolvePath (Example.world Example.demo false) "/opt/actor-spec/dist/cjs/cli")
  = false
  /\ (resolvePath (Example.world Example.demo false) "/opt/actor-spec/dist/cjs/cli" = ""
      <-> absPath (Example.world Example.demo false) "/opt/actor-spec/dist/cjs/cli"
          = resolve "/work" ["/opt/actor-spec/dist/cjs/cli"]).
Proof.
  exact (resolvePath_relative (Example.world Example.demo false)
           "/opt/actor-spec/dist/cjs/cli" eq_refl eq_refl).
Defined.

(** X17.  When the config file lies under the module directory,
    [resolvePath] is the segments below that directory joined by
    slashes: it starts with neither [./] nor [../]. *)
Theorem resolvePath_below_module
    (w : World) (filepath : string) (dirSegs rest : list string) :
  isAbsolute (cwd w) = true ->
  allPlain dirSegs -> modulePath w = rooted dirSegs ->
  segments (absPath w filepath) = (dirSegs ++ rest)%list -> rest <> [] ->
  resolvePath w filepath = String.concat "/" rest.
Proof.
  intros Hc Hd Hm Hseg Hne. unfold resolvePath. unfold absPath in *.
  destruct (resolve_rooted (cwd w) [cwd w; filepath] Hc) as [segs [Hs E]].
  rewrite E in *. rewrite segments_rooted in Hseg by assumption. subst segs.
  rewrite Hm.
  assert (Hneq : rooted dirSegs <> rooted (dirSegs ++ rest)).
  { intros Er. apply rooted_inj in Er; try assumption.
    rewrite <- (List.app_nil_r dirSegs) in Er at 1.
    apply app_inv_head in Er. now subst rest. }
  apply String.eqb_neq in Hneq. unfold relative. rewrite Hneq.
  rewrite !resolve_rooted_id by assumption. rewrite Hneq.
  rewrite !segments_rooted by assumption.
  now rewrite dropCommon_prefix.
Qed.

Lemma resolvePath_below_module_witness :
  resolvePath (mkWorld "/opt/tool" "/opt/tool" (fun _ => Normal VUndefined)
                       (fun _ => false) (fun _ => None) (fun _ _ => None))
              "./cfg/actorspec.js"
  = "cfg/actorspec.js".
Proof.
  apply (resolvePath_below_module
           (mkWorld "/opt/tool" "/opt/tool" (fun _ => Normal VUndefined)
                    (fun _ => false) (fun _ => None) (fun _ _ => None))
           "./cfg/actorspec.js" ["opt"; "tool"] ["cfg"; "actorspec.js"]);
    try reflexivity; try discriminate.
  repeat constructor.
Defined.
